(** * Chunked video segmentation: the Modal and RunPod SAM2 endpoints

    A shallow embedding of [segmentation/modal_sam2.py] and
    [segmentation/runpod_sam2.py].  Pure parts of the handlers (the chunk
    partition, the data-URL prefix strip, mask rendering) are Rocq
    functions; the collaborators the handlers call out to (base64, ffmpeg,
    ffprobe, PIL, the SAM2 predictor, the platform's map primitive) are
    fields of a [world] record; the handlers themselves run in a small
    monad that threads a log of the side effects they perform and either
    returns a value or raises a Python exception. *)

From stdpp Require Import gmap strings list fin_maps.
From Stdlib Require Import QArith.QArith_base Strings.Ascii.

Local Open Scope nat_scope.

(** ** Python integer and sequence helpers *)

Module Py.

(** [math.ceil(a / b)] for non-negative integers with [b > 0].  Python
    divides in floating point first; frame counts are far below [2^53]
    and the divisor is at most eight, so the rounded quotient has the same
    ceiling as the exact one. *)
Definition ceil_div (a b : nat) : nat :=
  a / b + (if a mod b =? 0 then 0 else 1).

(** [l[i:j]] for [0 <= i <= j]: out-of-range bounds are clipped. *)
Definition slice {A} (l : list A) (i j : nat) : list A :=
  take (j - i) (drop i l).

(** [s[-n:]] on a string: the last [n] characters, or all of [s] when it
    is shorter. *)
Definition str_suffix (n : nat) (s : string) : string :=
  String.substring (String.length s - n) n s.

End Py.

(** ** The chunk partition (modal_sam2.py, lines 176-182) *)

Definition MAX_PARALLEL_CHUNKS : nat := 8.

Section Partition.
Context {frame : Type}.

(** The loop [for i in range(0, num_frames, frames_per_chunk)]: [fuel]
    bounds the number of iterations, [i] is the loop variable. *)
Fixpoint chunk_loop (fuel i frames_per_chunk : nat)
    (all_frame_bytes : list frame) : list (list frame) :=
  match fuel with
  | 0 => []
  | S fuel' =>
      if i <? length all_frame_bytes then
        Py.slice all_frame_bytes i (i + frames_per_chunk)
          :: chunk_loop fuel' (i + frames_per_chunk) frames_per_chunk
               all_frame_bytes
      else []
  end.

Definition num_chunks_of (num_frames : nat) : nat :=
  Nat.min MAX_PARALLEL_CHUNKS num_frames.

Definition frames_per_chunk_of (num_frames : nat) : nat :=
  Py.ceil_div num_frames (num_chunks_of num_frames).

(** Only reached with at least one frame: the handler returns before
    this point when no frame was extracted. *)
Definition split_chunks (all_frame_bytes : list frame) : list (list frame) :=
  let num_frames := length all_frame_bytes in
  chunk_loop num_frames 0 (frames_per_chunk_of num_frames) all_frame_bytes.

End Partition.

(** ** Python values, exceptions, outcomes *)

Abbreviation bytes := (list Byte.byte).

(** The values a JSON request or response dictionary holds: scalars,
    arrays and objects (whose keys are strings).  Numbers are exact: a
    float is a rational, JSON having neither NaN nor infinities. *)
#[warnings="-register-all"]
Inductive pyval :=
| PNone
| PBool (b : bool)
| PInt (z : Z)
| PFloat (q : Q)
| PStr (s : string)
| PList (items : list pyval)
| PDict (entries : list (string * pyval)).

(** [bool(v)]: what [not v] negates. *)
Definition truthy (v : pyval) : bool :=
  match v with
  | PNone => false
  | PBool b => b
  | PInt z => negb (z =? 0)%Z
  | PFloat q => negb (Qnum q =? 0)%Z
  | PStr s => negb (String.eqb s "")
  | PList items => match items with [] => false | _ :: _ => true end
  | PDict entries => match entries with [] => false | _ :: _ => true end
  end.

Inductive exn :=
| TypeError
| AttributeError
| KeyError
| IndexError
| ValueError
| ZeroDivisionError
| StopIteration
| BinasciiError
| FfmpegError
| CalledProcessError
| UnidentifiedImageError
| ModelError
| WorkerLost
| RuntimeError (msg : string).

Inductive outcome (A : Type) :=
| Returned (a : A)
| Raised (e : exn).
Arguments Returned {A} a.
Arguments Raised {A} e.

#[global] Instance outcome_ret : MRet outcome := @Returned.
#[global] Instance outcome_bind : MBind outcome := fun A B k m =>
  match m with
  | Returned a => k a
  | Raised e => Raised e
  end.

(** [for x in l: ... f(x) ...] collecting results, stopping at the first
    exception. *)
Fixpoint for_each {A B} (f : A -> outcome B) (l : list A) : outcome (list B) :=
  match l with
  | [] => Returned []
  | x :: l' =>
      y ← f x;
      ys ← for_each f l';
      Returned (y :: ys)
  end.

(** ** Strings: membership and [str.split] *)

Module Str.

(** [c in s] for a one-character needle. *)
Fixpoint contains (c : Ascii.ascii) (s : string) : bool :=
  match s with
  | EmptyString => false
  | String d s' => if Ascii.eqb d c then true else contains c s'
  end.

(** [s.split(c, 1)]: at most one split, at the first occurrence. *)
Fixpoint split1 (c : Ascii.ascii) (s : string) : list string :=
  match s with
  | EmptyString => [EmptyString]
  | String d s' =>
      if Ascii.eqb d c then [EmptyString; s']
      else match split1 c s' with
           | hd :: tl => String d hd :: tl
           | [] => [String d EmptyString]
           end
  end.

(** [s.split(c)]: split at every occurrence. *)
Fixpoint split (c : Ascii.ascii) (s : string) : list string :=
  match s with
  | EmptyString => [EmptyString]
  | String d s' =>
      if Ascii.eqb d c then EmptyString :: split c s'
      else match split c s' with
           | hd :: tl => String d hd :: tl
           | [] => [String d EmptyString]
           end
  end.

(** [l[i]] on a Python list. *)
Definition index {A} (l : list A) (i : nat) : outcome A :=
  match l !! i with
  | Some x => Returned x
  | None => Raised IndexError
  end.

End Str.

(** ** Images and masks *)

(** A [uint8] array of shape [(h, w, 3)]: rows of pixels of channels. *)
Abbreviation image := (list (list (list N))).

(** One object's plane of [out_mask_logits]: the array has shape
    [(1, H, W)]; the list holds its [H] rows of [W] logits.  Logits are
    bfloat16 in the source; only their sign is inspected, which a rational
    stands in for. *)
Abbreviation plane := (list (list Q)).

(** A thresholded plane, still of shape [(1, H, W)]. *)
Abbreviation bitplane := (list (list bool)).

(** What [mask.squeeze()] leaves of a [(1, H, W)] boolean array: every
    axis of extent one is dropped. *)
Inductive squeezed :=
| Sq0 (b : bool)
| Sq1 (v : list bool)
| Sq2 (m : list (list bool)).

Module Np.

(** [np.zeros((h, w, 3), dtype=np.uint8)] *)
Definition zeros (h w : nat) : image :=
  replicate h (replicate w [0%N; 0%N; 0%N]).

Definition white : list N := [255%N; 255%N; 255%N].

(** [logits > 0.0], elementwise. *)
Definition gt0 (p : plane) : bitplane :=
  map (map (fun x => (0 <? Qnum x)%Z)) p.

Definition squeeze (m : bitplane) : squeezed :=
  match m with
  | [row] => match row with
             | [b] => Sq0 b
             | _ => Sq1 row
             end
  | _ =>
      if forallb (fun row => length row =? 1) m
      then Sq1 (map (fun row => default false (head row)) m)
      else Sq2 m
  end.

(** Row-wise and pixel-wise assignment of white where the index is true. *)
Definition paint_rows (v : list bool) (img : image) : image :=
  zip_with (fun (b : bool) row => if b then map (fun _ => white) row else row)
           v img.

Definition paint_pixels (m : list (list bool)) (img : image) : image :=
  zip_with (zip_with (fun (b : bool) px => if b then white else px)) m img.

(** [img[mask] = [255, 255, 255]] for a boolean index array: its shape
    must agree with the leading axes of [img], of shape [(h, w, 3)]. *)
Definition assign_white (h w : nat) (img : image) (mask : squeezed)
    : outcome image :=
  match mask with
  | Sq0 b => Returned (if b then map (map (fun _ => white)) img else img)
  | Sq1 v =>
      if length v =? h then Returned (paint_rows v img)
      else Raised IndexError
  | Sq2 m =>
      if (length m =? h) && forallb (fun row => length row =? w) m
      then Returned (paint_pixels m img)
      else Raised IndexError
  end.

End Np.

(** ** The collaborators *)

(** What the tracker yields for one frame: [(out_frame_idx, out_obj_ids,
    out_mask_logits)]. *)
Abbreviation tracker_yield := (nat * list nat * list plane)%type.

(** Everything the handlers call that is not their own code.  A failing
    call is an exception; the two ffmpeg runs report an exit status instead
    and the handlers decide what to do with it. *)
Record world := World {
  b64decode : string -> outcome bytes;
  b64encode : bytes -> string;
  ffprobe : bytes -> outcome (list (gmap string string));
  py_int : string -> outcome Z;
  (** frame extraction: [None] when ffmpeg exits non-zero, otherwise the
      [.jpg] files it wrote, sorted by their number *)
  ffmpeg_extract : bytes -> option (list bytes);
  (** [Image.open(p).size], as [(width, height)] *)
  image_size : bytes -> outcome (nat * nat);
  inference_state : Type;
  init_state : list bytes -> outcome inference_state;
  add_new_points_or_box :
    inference_state -> nat -> nat -> nat * nat -> Z -> outcome inference_state;
  propagate_in_video : inference_state -> outcome (list tracker_yield);
  png_encode : image -> bytes;
  (** the encode run: exit status, stderr, and the file it wrote *)
  ffmpeg_encode : Q -> list bytes -> Z * string * bytes;
  (** [round(time.time() - t0, 1)] *)
  elapsed : Q;
}.

(** ** Mask rendering, shared by both files *)

Section Render.
Variable w : world.

(** The dict comprehension
    [{out_obj_id: (out_mask_logits[i] > 0.0) for i, out_obj_id in
    enumerate(out_obj_ids)}]. *)
Fixpoint masks_of (i : nat) (out_obj_ids : list nat)
    (out_mask_logits : list plane) (d : gmap nat bitplane)
    : outcome (gmap nat bitplane) :=
  match out_obj_ids with
  | [] => Returned d
  | out_obj_id :: rest =>
      logits ← Str.index out_mask_logits i;
      masks_of (S i) rest out_mask_logits (<[out_obj_id := Np.gt0 logits]> d)
  end.

(** The loop over [propagate_in_video], filling [video_segments]. *)
Fixpoint collect_segments (yields : list tracker_yield)
    (video_segments : gmap nat (gmap nat bitplane))
    : outcome (gmap nat (gmap nat bitplane)) :=
  match yields with
  | [] => Returned video_segments
  | (out_frame_idx, out_obj_ids, out_mask_logits) :: rest =>
      d ← masks_of 0 out_obj_ids out_mask_logits ∅;
      collect_segments rest (<[out_frame_idx := d]> video_segments)
  end.

(** [for obj_id, mask in ...items(): mask_img[mask.squeeze()] = white] *)
Fixpoint paint_all (h wd : nat) (masks : list bitplane) (mask_img : image)
    : outcome image :=
  match masks with
  | [] => Returned mask_img
  | mask :: rest =>
      img ← Np.assign_white h wd mask_img (Np.squeeze mask);
      paint_all h wd rest img
  end.

(** One iteration of the rendering loop, up to the PNG encoder. *)
Definition render_frame (height width : nat)
    (video_segments : gmap nat (gmap nat bitplane)) (frame_idx : nat)
    : outcome image :=
  let mask_img := Np.zeros height width in
  match video_segments !! frame_idx with
  | Some d => paint_all height width (snd <$> map_to_list d) mask_img
  | None => Returned mask_img
  end.

(** One iteration of the rendering loop: the mask image as PNG bytes. *)
Definition render_png (height width : nat)
    (video_segments : gmap nat (gmap nat bitplane)) (frame_idx : nat)
    : outcome bytes :=
  mask_img ← render_frame height width video_segments frame_idx;
  Returned (png_encode w mask_img).

(** Seeding and propagation: [init_state], [add_new_points_or_box] at
    frame 0 with object id 1 and the centre point, then the
    propagation loop. *)
Definition track (frames : list bytes) (width height : nat)
    : outcome (gmap nat (gmap nat bitplane)) :=
  let points := (width / 2, height / 2) in
  let labels := 1%Z in
  inference_state ← init_state w frames;
  inference_state ← add_new_points_or_box w inference_state 0 1 points labels;
  yields ← propagate_in_video w inference_state;
  collect_segments yields ∅.

End Render.

(** ** The handler monad: a log of side effects and an outcome *)

(** The calls a handler makes on the world outside it.  [EB64Decode s]
    is [base64.b64decode] decoding the string [s]: a call that the
    function refuses for the type of its argument decodes nothing and
    leaves no entry. *)
Inductive effect :=
| EB64Decode (s : string)
| EMkdtemp
| EWriteInput (video_bytes : bytes)
| EProbe
| EExtract
| EOpenImage (p : bytes)
| ELocal (chunk : list bytes)
| EMap (chunks : list (list bytes))
| ETrack (frames : list bytes)
| EWriteMask (i : nat) (png : bytes)
| EEncode (masks : list bytes)
| EReadOutput.

Definition M (A : Type) : Type := list effect -> outcome A * list effect.

#[global] Instance M_ret : MRet M := fun A a log => (Returned a, log).
#[global] Instance M_bind : MBind M := fun A B k m log =>
  match m log with
  | (Returned a, log') => k a log'
  | (Raised e, log') => (Raised e, log')
  end.

Definition perform (e : effect) : M unit := fun log => (Returned tt, log ++ [e]).
Definition lift {A} (o : outcome A) : M A := fun log => (o, log).
Definition raise {A} (e : exn) : M A := lift (Raised e).

(** Run a handler from an empty log. *)
Definition run {A} (m : M A) : outcome A * list effect := m [].

(** What leaves an [async def]: a [StopIteration] that escapes the body
    of a coroutine is replaced by
    [RuntimeError("coroutine raised StopIteration")]; any other exception
    leaves as it is. *)
Definition coroutine_exit (e : exn) : exn :=
  match e with
  | StopIteration => RuntimeError "coroutine raised StopIteration"
  | _ => e
  end.

(** The body of an [async def], awaited. *)
Definition coroutine {A} (body : M A) : M A := fun log =>
  match body log with
  | (Returned a, log') => (Returned a, log')
  | (Raised e, log') => (Raised (coroutine_exit e), log')
  end.

(** [for i, x in enumerate(l): body(i, x)] *)
Fixpoint for_enumerate {A} (body : nat -> A -> M unit) (i : nat) (l : list A)
    : M unit :=
  match l with
  | [] => mret tt
  | x :: l' => _ ← body i x; for_enumerate body (S i) l'
  end.

(** ** Request preamble, probe and encode command, shared by both files *)

Section Common.
Variable w : world.

(** [data.get("video_base64", "")] *)
Definition get_payload (data : gmap string pyval) : pyval :=
  default (PStr "") (data !! "video_base64"%string).

(** [x == ","] for an item of a list. *)
Definition is_comma (x : pyval) : bool :=
  match x with
  | PStr s => String.eqb s ","
  | _ => false
  end.

(** [if "," in video_b64: video_b64 = video_b64.split(",", 1)[1]] on a
    truthy payload, up to the string that [base64.b64decode] works on.
    [None], a boolean and a number have no [in]: the test raises
    [TypeError].  A list has [in] over its items and a dict over its
    keys, but neither has [split]: with a comma among them the call
    raises [AttributeError]; without one the value goes to [b64decode]
    as it is, and [b64decode] raises [TypeError] on an argument that is
    neither a string nor bytes-like, before it decodes anything. *)
Definition strip_prefix (video_b64 : pyval) : outcome string :=
  match video_b64 with
  | PStr s =>
      if Str.contains ","%char s
      then Str.index (Str.split1 ","%char s) 1
      else Returned s
  | PList items =>
      if existsb is_comma items then Raised AttributeError
      else Raised TypeError
  | PDict entries =>
      if existsb (fun kv => String.eqb (fst kv) ",") entries
      then Raised AttributeError
      else Raised TypeError
  | PNone | PBool _ | PInt _ | PFloat _ => Raised TypeError
  end.

(** [next(s for s in probe["streams"] if s["codec_type"] == "video")] *)
Fixpoint first_video_stream (streams : list (gmap string string))
    : outcome (gmap string string) :=
  match streams with
  | [] => Raised StopIteration
  | s :: rest =>
      match s !! "codec_type"%string with
      | None => Raised KeyError
      | Some c => if String.eqb c "video" then Returned s
                  else first_video_stream rest
      end
  end.

(** The probe and the frame-rate arithmetic:
    [int(fps_parts[0]) / int(fps_parts[1])]. *)
Definition probe_fps (video_bytes : bytes) : M Q :=
  _ ← perform EProbe;
  streams ← lift (ffprobe w video_bytes);
  video_stream ← lift (first_video_stream streams);
  rate ← lift (match video_stream !! "r_frame_rate"%string with
               | Some r => Returned r
               | None => Raised KeyError
               end);
  let fps_parts := Str.split "/"%char rate in
  a ← lift (Str.index fps_parts 0 ≫= py_int w);
  b ← lift (Str.index fps_parts 1 ≫= py_int w);
  if (b =? 0)%Z then raise ZeroDivisionError
  else mret (inject_Z a / inject_Z b)%Q.

End Common.

(** [for i in idxs: ... body(i) ...] in the handler monad, collecting what
    each iteration produced. *)
Fixpoint for_range {A} (body : nat -> M A) (idxs : list nat) : M (list A) :=
  match idxs with
  | [] => mret []
  | i :: rest =>
      x ← body i;
      xs ← for_range body rest;
      mret (x :: xs)
  end.

Definition error_response (msg : string) : gmap string pyval :=
  {[ "error"%string := PStr msg ]}.

(** ** modal_sam2.py *)

Module Modal.

(** [SAM2Model.segment_chunk]: the worker. *)
Definition segment_chunk (w : world) (frame_jpegs : list bytes)
    (width height : nat) : outcome (list bytes) :=
  video_segments ← track w frame_jpegs width height;
  for_each (render_png w height width video_segments)
           (seq 0 (length frame_jpegs)).

(** Modelled from the spec: the platform's map primitive, which is not
    part of the repository.  It takes a function and a list of inputs,
    runs one worker per input, and returns the results in input order.
    [order] is the order in which the workers complete; the result for
    input [i] is picked out of the completed ones by its index, and the
    first failed worker in input order fails the call. *)
Definition pool_map {A B} (order : list nat) (f : A -> outcome B)
    (inputs : list A) : outcome (list B) :=
  let completed :=
    omap (fun i => (fun x => (i, f x)) <$> inputs !! i) order in
  for_each
    (fun i =>
       match list_find (fun r => fst r = i) completed with
       | Some (_, (_, r)) => r
       | None => Raised WorkerLost
       end)
    (seq 0 (length inputs)).

(** Lines 186-201 of [segment]: the dispatcher. *)
Definition dispatch (w : world) (order : list nat)
    (chunks : list (list bytes)) (width height : nat) : M (list bytes) :=
  if length chunks =? 1 then
    chunk ← lift (Str.index chunks 0);
    _ ← perform (ELocal chunk);
    lift (segment_chunk w chunk width height)
  else
    _ ← perform (EMap chunks);
    chunk_results ←
      lift (pool_map order
              (fun chunk => segment_chunk w chunk width height) chunks);
    mret (concat chunk_results).

(** The dictionary [segment] returns on success. *)
Definition success_response (w : world) (frames : list bytes) (fps : Q)
    (result_bytes : bytes) : gmap string pyval :=
  list_to_map
    [ ("mask_video_base64"%string, PStr (b64encode w result_bytes));
      ("num_frames"%string, PInt (Z.of_nat (length frames)));
      ("fps"%string, PFloat fps);
      ("original_fps"%string, PFloat fps);
      ("chunks"%string, PInt (Z.of_nat (length (split_chunks frames))));
      ("processing_time"%string, PFloat (elapsed w)) ].

(** [SAM2Model.segment]: the request handler.  [order] is the order in
    which pooled workers happen to complete during this request. *)
Definition segment (w : world) (order : list nat)
    (data : gmap string pyval) : M (gmap string pyval) :=
  let video_b64 := get_payload data in
  if negb (truthy video_b64) then
    mret (error_response "No video_base64 provided")
  else
    video_b64 ← lift (strip_prefix video_b64);
    _ ← perform (EB64Decode video_b64);
    video_bytes ← lift (b64decode w video_b64);
    _ ← perform EMkdtemp;
    _ ← perform (EWriteInput video_bytes);
    original_fps ← probe_fps w video_bytes;
    _ ← perform EExtract;
    frame_paths ← match ffmpeg_extract w video_bytes with
                  | Some fs => mret fs
                  | None => raise FfmpegError
                  end;
    match frame_paths with
    | [] => mret (error_response "No frames extracted from video")
    | first :: _ =>
        _ ← perform (EOpenImage first);
        '(width, height) ← lift (image_size w first);
        let all_frame_bytes := frame_paths in
        let num_frames := length all_frame_bytes in
        let chunks := split_chunks all_frame_bytes in
        all_mask_pngs ← dispatch w order chunks width height;
        _ ← for_enumerate (fun i png_bytes => perform (EWriteMask i png_bytes))
              0 all_mask_pngs;
        _ ← perform (EEncode all_mask_pngs);
        let '(returncode, stderr, result_bytes) :=
          ffmpeg_encode w original_fps all_mask_pngs in
        if negb (returncode =? 0)%Z then
          raise (RuntimeError ("ffmpeg failed: " +:+ Py.str_suffix 500 stderr))
        else
          _ ← perform EReadOutput;
          mret (success_response w all_frame_bytes original_fps result_bytes)
    end.

End Modal.

(** ** runpod_sam2.py *)

Module Runpod.

(** One iteration of the rendering loop of [segment_video]: the mask of
    a frame is rendered at that frame's own size and saved at once. *)
Definition render_one (w : world) (frame_names : list bytes)
    (video_segments : gmap nat (gmap nat bitplane)) (frame_idx : nat)
    : M bytes :=
  frame ← lift (Str.index frame_names frame_idx);
  _ ← perform (EOpenImage frame);
  '(w', h) ← lift (image_size w frame);
  mask_img ← lift (render_frame h w' video_segments frame_idx);
  let png := png_encode w mask_img in
  _ ← perform (EWriteMask frame_idx png);
  mret png.

(** Lines 95-134 of [segment_video]: inference runs inline, with one
    tracking state over all the frames.  Loading the predictor (cached
    per worker process) is taken to have succeeded. *)
Definition render_masks (w : world) (frame_names : list bytes)
    : M (list bytes) :=
  first ← lift (Str.index frame_names 0);
  _ ← perform (EOpenImage first);
  '(width, height) ← lift (image_size w first);
  _ ← perform (ETrack frame_names);
  video_segments ← lift (track w frame_names width height);
  for_range (render_one w frame_names video_segments)
            (seq 0 (length frame_names)).

(** The dictionary [segment_video] returns on success. *)
Definition success_response (w : world) (frames : list bytes) (fps : Q)
    (result_bytes : bytes) : gmap string pyval :=
  list_to_map
    [ ("mask_video_base64"%string, PStr (b64encode w result_bytes));
      ("num_frames"%string, PInt (Z.of_nat (length frames)));
      ("fps"%string, PFloat fps) ].

(** The body of [segment_video], statement by statement. *)
Definition segment_video_body (w : world) (input_data : gmap string pyval)
    : M (gmap string pyval) :=
  let video_b64 := get_payload input_data in
  if negb (truthy video_b64) then
    mret (error_response "No video_base64 provided")
  else
    video_b64 ← lift (strip_prefix video_b64);
    _ ← perform (EB64Decode video_b64);
    video_bytes ← lift (b64decode w video_b64);
    _ ← perform EMkdtemp;
    _ ← perform (EWriteInput video_bytes);
    _ ← perform EExtract;
    frame_names ← match ffmpeg_extract w video_bytes with
                  | Some fs => mret fs
                  | None => raise CalledProcessError
                  end;
    match frame_names with
    | [] => mret (error_response "No frames extracted from video")
    | _ :: _ =>
        masks ← render_masks w frame_names;
        fps ← probe_fps w video_bytes;
        _ ← perform (EEncode masks);
        let '(returncode, stderr, result_bytes) :=
          ffmpeg_encode w fps masks in
        if negb (returncode =? 0)%Z then
          mret (error_response
                  ("ffmpeg encode failed: " +:+ Py.str_suffix 500 stderr))
        else
          _ ← perform EReadOutput;
          mret (success_response w frame_names fps result_bytes)
    end.

(** [segment_video]: the request handler, an [async def]. *)
Definition segment_video (w : world) (input_data : gmap string pyval)
    : M (gmap string pyval) :=
  coroutine (segment_video_body w input_data).

End Runpod.

(** ** Predicates the theorems are stated with *)

(** A handler only ever appends to the log it is given. *)
Definition appends {A} (m : M A) : Prop :=
  forall log, m log = (fst (m []), log ++ snd (m [])).

(** numpy's rule for a boolean index array against an array of shape
    [(h, w, 3)]: its shape must match the leading axes. *)
Definition indexable (h w : nat) (mask : squeezed) : Prop :=
  match mask with
  | Sq0 _ => True
  | Sq1 v => length v = h
  | Sq2 m => length m = h /\ Forall (fun row => length row = w) m
  end.

(** Every mask the tracker propagated can index the rendered image. *)
Definition segments_indexable (h w : nat)
    (video_segments : gmap nat (gmap nat bitplane)) : Prop :=
  forall frame_idx d obj_id mask,
    video_segments !! frame_idx = Some d -> d !! obj_id = Some mask ->
    indexable h w (Np.squeeze mask).

Definition all_black (img : image) : Prop :=
  Forall (Forall (fun px => px = [0%N; 0%N; 0%N])) img.

Definition has_shape (h w : nat) (img : image) : Prop :=
  length img = h /\
  Forall (fun row => length row = w /\ Forall (fun px => length px = 3) row) img.

(** A yield the propagation loop can consume: a logit plane for every
    object id, each of a shape that can index the rendered image once
    thresholded and squeezed. *)
Definition well_formed_yield (h w : nat) (y : tracker_yield) : Prop :=
  let '(_, out_obj_ids, out_mask_logits) := y in
  length out_obj_ids <= length out_mask_logits /\
  Forall (fun p => indexable h w (Np.squeeze (Np.gt0 p))) out_mask_logits.

(** ** Observing a log *)

(** The PNG bytes written during a run, in the order they were written. *)
Definition masks_written (log : list effect) : list bytes :=
  omap (fun e => match e with EWriteMask _ png => Some png | _ => None end)
       log.

(** The frame sequences a tracking state was initialised on in-process. *)
Definition tracked (log : list effect) : list (list bytes) :=
  omap (fun e => match e with ETrack frames => Some frames | _ => None end)
       log.

(** ** Concrete worlds, for evaluating the handlers *)

Module Demo.

(** [n] one-byte stand-ins for JPEG frames, all different. *)
Definition frames_of (n : nat) : list bytes :=
  map (fun i => [default Byte.x00 (Byte.of_nat i)]) (seq 0 n).

(** [int()] on decimal digits. *)
Fixpoint digits (s : string) (acc : Z) : outcome Z :=
  match s with
  | EmptyString => Returned acc
  | String c s' =>
      let n := Ascii.nat_of_ascii c in
      if (48 <=? n) && (n <=? 57)
      then digits s' (acc * 10 + Z.of_nat (n - 48))%Z
      else Raised ValueError
  end.

Definition int (s : string) : outcome Z :=
  match s with
  | EmptyString => Raised ValueError
  | _ => digits s 0%Z
  end.

Definition video_stream : gmap string string :=
  list_to_map [ ("codec_type"%string, "video"%string);
                ("r_frame_rate"%string, "30/1"%string) ].

(** A 2x2 logit plane, positive everywhere or negative everywhere. *)
Definition plane_of (seen : bool) : plane :=
  let x := if seen then (1 # 1)%Q else (-1 # 1)%Q in [[x; x]; [x; x]].

(** A world over 2x2 frames.  The payload [AAAA] is base64 for three
    zero bytes and nothing else decodes; the tracker sees the object in
    the frame it was seeded on and loses it afterwards; PNG bytes are the
    pixel channels in row order; a successful encode writes the masks one
    after the other; the response text is the output read as Latin-1. *)
Definition world_of (extracted : option (list bytes))
    (probed : outcome (list (gmap string string)))
    (encoded : list bytes -> Z * string * bytes) : world :=
  {| b64decode s :=
       if String.eqb s "AAAA" then Returned [Byte.x00; Byte.x00; Byte.x00]
       else Raised BinasciiError;
     b64encode b := String.string_of_list_byte b;
     ffprobe _ := probed;
     py_int := int;
     ffmpeg_extract _ := extracted;
     image_size _ := Returned (2, 2);
     inference_state := list bytes;
     init_state frames := Returned frames;
     add_new_points_or_box st _ _ _ _ := Returned st;
     propagate_in_video st :=
       Returned (imap (fun j _ => (j, [1], [plane_of (j =? 0)])) st);
     png_encode img :=
       map (fun n => default Byte.x00 (Byte.of_N n)) (concat (concat img));
     ffmpeg_encode _ masks := encoded masks;
     elapsed := (1 # 2)%Q |}.

Definition encode_ok (masks : list bytes) : Z * string * bytes :=
  (0%Z, EmptyString, concat masks).

Definition encode_fails (masks : list bytes) : Z * string * bytes :=
  (1%Z, "Invalid frame rate"%string, []).

(** A video of [n] frames that probes and encodes. *)
Definition video (n : nat) : world :=
  world_of (Some (frames_of n)) (Returned [video_stream]) encode_ok.

(** A video the probe rejects. *)
Definition unprobeable : world :=
  world_of (Some (frames_of 2)) (Raised FfmpegError) encode_ok.

(** A video whose masks the encoder rejects. *)
Definition unencodable : world :=
  world_of (Some (frames_of 2)) (Returned [video_stream]) encode_fails.

Definition request (s : string) : gmap string pyval :=
  {[ "video_base64"%string := PStr s ]}.

End Demo.

(** ** More observations on a log *)

(** The indices masks were written under, in the order of writing. *)
Definition mask_indices (log : list effect) : list nat :=
  omap (fun e => match e with EWriteMask i _ => Some i | _ => None end) log.

(** The mask sequences the encoder was started on. *)
Definition encoded (log : list effect) : list (list bytes) :=
  omap (fun e => match e with EEncode masks => Some masks | _ => None end) log.

(** A handler keeps a property of the effects in its log. *)
Definition emits (P : effect -> Prop) {A} (m : M A) : Prop :=
  forall log, Forall P log -> Forall P (snd (m log)).

(** A pooled dispatch stays within the platform limit: between two and
    [MAX_PARALLEL_CHUNKS] chunks, none of them empty. *)
Definition within_pool_limit (e : effect) : Prop :=
  match e with
  | EMap chunks =>
      2 <= length chunks <= MAX_PARALLEL_CHUNKS /\
      Forall (fun chunk => chunk <> []) chunks
  | _ => True
  end.

(** ** Reading arrays *)

(** [mask[r, c]] of a thresholded plane, false outside it. *)
Definition bit_at (m : bitplane) (r c : nat) : bool :=
  default false (m !! r ≫= fun row => row !! c).

(** [logits[0, r, c]] *)
Definition logit_at (p : plane) (r c : nat) : option Q :=
  p !! r ≫= fun row => row !! c.

(** [img[r, c]], the three channels of a pixel. *)
Definition pixel_at (img : image) (r c : nat) : option (list N) :=
  img !! r ≫= fun row => row !! c.

Definition black : list N := [0%N; 0%N; 0%N].

(** An array of [h] rows of [w] entries. *)
Definition plane_shape {X} (h w : nat) (m : list (list X)) : Prop :=
  length m = h /\ Forall (fun row => length row = w) m.

(** The frame indices of a sequence of tracker yields. *)
Definition yielded (yields : list tracker_yield) : list nat :=
  (fun y => fst (fst y)) <$> yields.

(** ** runpod_sam2.py: what [main] does with the result *)

(** What the remote call hands back: the handler's dictionary itself, or,
    on a queue-based endpoint, a wrapper with [output] and [error]
    attributes. *)
Inductive remote_result :=
| Plain (output : gmap string pyval)
| JobOutput (output : gmap string pyval) (error : pyval).

(** The lines [main] prints after the call, with the values they
    interpolate. *)
Inductive printed :=
| PrintedError (v : pyval)
| PrintedSuccess
| PrintedFrames (num_frames fps : pyval)
| PrintedSize (n : nat).

(** Lines 199-205 of [main]: the lines printed, and the exception that
    ended the function if one did. *)
Definition report_output (w : world) (output : gmap string pyval)
    : list printed * option exn :=
  match output !! "error"%string with
  | Some v => ([PrintedError v], None)
  | None =>
      match output !! "mask_video_base64"%string with
      | None => ([], Some KeyError)
      | Some (PStr s) =>
          match b64decode w s with
          | Raised e => ([], Some e)
          | Returned mask_bytes =>
              match output !! "num_frames"%string, output !! "fps"%string with
              | Some n, Some fps =>
                  ([PrintedSuccess; PrintedFrames n fps;
                    PrintedSize (length mask_bytes)], None)
              | _, _ => ([PrintedSuccess], Some KeyError)
              end
          end
      | Some _ => ([], Some TypeError)
      end
  end.

(** Lines 190-205 of [main]. *)
Definition report (w : world) (result : remote_result)
    : list printed * option exn :=
  match result with
  | JobOutput output error =>
      if truthy error then ([PrintedError error], None)
      else report_output w output
  | Plain output => report_output w output
  end.

(** ** More concrete inputs *)

Module Cases.

(** A two-frame video on a worker whose predictor cannot initialise. *)
Definition tracker_fails : world :=
  let v := Demo.video 2 in
  {| b64decode := b64decode v;
     b64encode := b64encode v;
     ffprobe := ffprobe v;
     py_int := py_int v;
     ffmpeg_extract := ffmpeg_extract v;
     image_size := image_size v;
     inference_state := unit;
     init_state _ := Raised ModelError;
     add_new_points_or_box st _ _ _ _ := Returned st;
     propagate_in_video _ := Returned [];
     png_encode := png_encode v;
     ffmpeg_encode := ffmpeg_encode v;
     elapsed := elapsed v |}.

Definition audio_stream : gmap string string :=
  list_to_map [ ("codec_type"%string, "audio"%string);
                ("r_frame_rate"%string, "0/0"%string) ].

(** A two-frame file in which the probe finds an audio stream only. *)
Definition audio_only : world :=
  Demo.world_of (Some (Demo.frames_of 2)) (Returned [audio_stream])
    Demo.encode_ok.

(** A two-frame video whose frame rate is given as a decimal. *)
Definition decimal_rate : world :=
  Demo.world_of (Some (Demo.frames_of 2))
    (Returned [ list_to_map [ ("codec_type"%string, "video"%string);
                              ("r_frame_rate"%string, "29.97"%string) ] ])
    Demo.encode_ok.

(** A request whose payload is the number five. *)
Definition number_request : gmap string pyval :=
  {[ "video_base64"%string := PInt 5 ]}.

(** Requests whose payload is a JSON array: [[","]] and [[1]]. *)
Definition comma_list_request : gmap string pyval :=
  {[ "video_base64"%string := PList [PStr ","] ]}.

Definition number_list_request : gmap string pyval :=
  {[ "video_base64"%string := PList [PInt 1] ]}.

(** A request whose payload is the empty JSON object. *)
Definition empty_object_request : gmap string pyval :=
  {[ "video_base64"%string := PDict [] ]}.

(** What the demo tracker yields on two frames. *)
Definition two_yields : list tracker_yield :=
  [ (0, [1], [Demo.plane_of true]); (1, [1], [Demo.plane_of false]) ].

(** A diagonal 2x2 mask for object [1] on frame [0]. *)
Definition diagonal : gmap nat bitplane :=
  {[ 1 := [[true; false]; [false; true]] ]}.

Definition diagonal_segments : gmap nat (gmap nat bitplane) :=
  {[ 0 := diagonal ]}.

End Cases.

(** ** Facts about the partition *)

Section PartitionFacts.
Context {frame : Type}.
Implicit Types (frames : list frame) (c i n fuel : nat).

Lemma ceil_div_small n c : 0 < n -> n <= c -> Py.ceil_div n c = 1.
Proof.
  intros Hn Hc. unfold Py.ceil_div.
  destruct (decide (n = c)) as [->|Hne].
  - rewrite Nat.div_same, Nat.Div0.mod_same by lia. reflexivity.
  - rewrite Nat.div_small, Nat.mod_small by lia.
    destruct (Nat.eqb_spec n 0); lia.
Qed.

Lemma ceil_div_0 c : Py.ceil_div 0 c = 0.
Proof.
  unfold Py.ceil_div. destruct c; [reflexivity|].
  rewrite Nat.div_small, Nat.mod_small by lia. reflexivity.
Qed.

Lemma ceil_div_step n c : 0 < c -> c < n ->
  Py.ceil_div n c = S (Py.ceil_div (n - c) c).
Proof.
  intros Hc Hn. unfold Py.ceil_div.
  replace n with ((n - c) + 1 * c) at 1 2 by lia.
  rewrite Nat.div_add, Nat.Div0.mod_add by lia. lia.
Qed.

Lemma ceil_div_bounds n c : 0 < c ->
  c * (Py.ceil_div n c) < n + c /\ n <= c * Py.ceil_div n c.
Proof.
  intros Hc. unfold Py.ceil_div.
  pose proof (Nat.div_mod_eq n c) as Heq.
  pose proof (Nat.mod_upper_bound n c ltac:(lia)) as Hlt.
  destruct (Nat.eqb_spec (n mod c) 0); nia.
Qed.

Lemma chunk_loop_length fuel i c frames :
  0 < c -> length frames - i <= fuel ->
  length (chunk_loop fuel i c frames) = Py.ceil_div (length frames - i) c.
Proof.
  intros Hc. revert i.
  induction fuel as [|fuel IH]; intros i Hfuel; simpl.
  - replace (length frames - i) with 0 by lia. now rewrite ceil_div_0.
  - destruct (Nat.ltb_spec i (length frames)) as [Hi|Hi].
    + simpl. rewrite IH by lia.
      destruct (decide (length frames - i <= c)) as [Hle|Hgt].
      * rewrite (ceil_div_small (length frames - i)) by lia.
        replace (length frames - (i + c)) with 0 by lia.
        now rewrite ceil_div_0.
      * rewrite (ceil_div_step (length frames - i)) by lia.
        do 2 f_equal. lia.
    + replace (length frames - i) with 0 by lia. now rewrite ceil_div_0.
Qed.

Lemma chunk_loop_concat fuel i c frames :
  0 < c -> length frames - i <= fuel ->
  concat (chunk_loop fuel i c frames) = drop i frames.
Proof.
  intros Hc. revert i.
  induction fuel as [|fuel IH]; intros i Hfuel; simpl.
  - symmetry. apply drop_ge. lia.
  - destruct (Nat.ltb_spec i (length frames)) as [Hi|Hi].
    + simpl. rewrite IH by lia. unfold Py.slice.
      replace (i + c - i) with c by lia.
      rewrite <- drop_drop. apply take_drop.
    + symmetry. apply drop_ge. lia.
Qed.

Lemma chunk_loop_lookup fuel i c frames k :
  0 < c -> length frames - i <= fuel ->
  k < Py.ceil_div (length frames - i) c ->
  chunk_loop fuel i c frames !! k
  = Some (Py.slice frames (i + k * c) (i + k * c + c)).
Proof.
  intros Hc. revert i k.
  induction fuel as [|fuel IH]; intros i k Hfuel Hk; simpl.
  - replace (length frames - i) with 0 in Hk by lia.
    rewrite ceil_div_0 in Hk. lia.
  - destruct (Nat.ltb_spec i (length frames)) as [Hi|Hi].
    + destruct k as [|k]; simpl.
      * now rewrite Nat.add_0_r.
      * rewrite IH.
        -- do 2 f_equal; lia.
        -- lia.
        -- destruct (decide (length frames - i <= c)) as [Hle|Hgt].
           ++ rewrite ceil_div_small in Hk by lia. lia.
           ++ rewrite (ceil_div_step (length frames - i)) in Hk by lia.
              replace (length frames - (i + c))
                with (length frames - i - c) by lia. lia.
    + replace (length frames - i) with 0 in Hk by lia.
      rewrite ceil_div_0 in Hk. lia.
Qed.

Lemma frames_per_chunk_pos n : 0 < n -> 0 < frames_per_chunk_of n.
Proof.
  intros Hn. unfold frames_per_chunk_of, num_chunks_of.
  pose proof (ceil_div_bounds n (Nat.min MAX_PARALLEL_CHUNKS n)) as H.
  unfold MAX_PARALLEL_CHUNKS in *.
  destruct (Py.ceil_div n (Nat.min 8 n)); [|lia].
  destruct H; lia.
Qed.

End PartitionFacts.

(** ** The partition: count, sizes, reconstruction *)

Section SplitChunks.
Context {frame : Type}.
Implicit Types (frames chunk : list frame) (k j : nat).

Lemma split_chunks_length frames :
  frames <> [] ->
  length (split_chunks frames)
  = Py.ceil_div (length frames) (frames_per_chunk_of (length frames)).
Proof.
  intros Hne. unfold split_chunks.
  assert (0 < length frames) as Hpos by (destruct frames; simpl; [done|lia]).
  rewrite chunk_loop_length by (auto using frames_per_chunk_pos; lia).
  now rewrite Nat.sub_0_r.
Qed.

Lemma split_chunks_lookup frames k chunk :
  frames <> [] ->
  split_chunks frames !! k = Some chunk ->
  let c := frames_per_chunk_of (length frames) in
  chunk = Py.slice frames (k * c) (k * c + c) /\ k * c < length frames.
Proof.
  intros Hne Hk c.
  assert (0 < length frames) as Hpos by (destruct frames; simpl; [done|lia]).
  assert (0 < c) as Hc by (apply frames_per_chunk_pos; lia).
  pose proof (lookup_lt_Some _ _ _ Hk) as Hlt.
  rewrite split_chunks_length in Hlt by done. fold c in Hlt.
  unfold split_chunks in Hk.
  rewrite (chunk_loop_lookup _ _ c) in Hk
    by (try rewrite Nat.sub_0_r; try done; lia).
  simpl in Hk. split; [congruence|].
  pose proof (ceil_div_bounds (length frames) c Hc) as [Hb _]. nia.
Qed.

Lemma slice_length (l : list frame) i c :
  length (Py.slice l i (i + c)) = Nat.min c (length l - i).
Proof.
  unfold Py.slice. rewrite length_take, length_drop. f_equal. lia.
Qed.

Lemma slice_lookup (l : list frame) i c j :
  j < c -> Py.slice l i (i + c) !! j = l !! (i + j).
Proof.
  intros Hj. unfold Py.slice. replace (i + c - i) with c by lia.
  rewrite lookup_take. destruct (decide (j < c)); [|lia].
  apply lookup_drop.
Qed.

Lemma split_chunks_le_num_chunks frames :
  frames <> [] ->
  1 <= length (split_chunks frames) <= num_chunks_of (length frames).
Proof.
  intros Hne. rewrite split_chunks_length by done.
  assert (0 < length frames) as Hpos by (destruct frames; simpl; [done|lia]).
  pose proof (frames_per_chunk_pos _ Hpos) as Hc.
  set (n := length frames) in *. set (c := frames_per_chunk_of n) in *.
  assert (0 < num_chunks_of n) as Hm
    by (unfold num_chunks_of, MAX_PARALLEL_CHUNKS; lia).
  pose proof (ceil_div_bounds n (num_chunks_of n) Hm) as [_ Hup].
  fold (frames_per_chunk_of n) in Hup. fold c in Hup.
  pose proof (ceil_div_bounds n c Hc) as [Hlo Hhi].
  split; nia.
Qed.

Lemma split_chunks_small frames :
  frames <> [] -> length frames <= MAX_PARALLEL_CHUNKS ->
  length (split_chunks frames) = length frames.
Proof.
  intros Hne Hle. rewrite split_chunks_length by done.
  assert (0 < length frames) as Hpos by (destruct frames; simpl; [done|lia]).
  unfold frames_per_chunk_of, num_chunks_of.
  rewrite Nat.min_r by done.
  rewrite (ceil_div_small (length frames) (length frames)) by lia.
  unfold Py.ceil_div. rewrite Nat.div_1_r, Nat.mod_1_r. simpl. lia.
Qed.

End SplitChunks.

(** ** Reasoning about handlers *)

Create HintDb handler discriminated.

Section HandlerLaws.
Context {A B : Type}.

Lemma appends_ret (a : A) : appends (mret a).
Proof. intros log. unfold mret, M_ret. simpl. now rewrite app_nil_r. Qed.

Lemma appends_lift (o : outcome A) : appends (lift o).
Proof. intros log. unfold lift. simpl. now rewrite app_nil_r. Qed.

Lemma appends_raise (e : exn) : appends (@raise A e).
Proof. apply appends_lift. Qed.

Lemma appends_perform (e : effect) : appends (perform e).
Proof. intros log. reflexivity. Qed.

Lemma appends_bind (m : M A) (k : A -> M B) :
  appends m -> (forall a, appends (k a)) -> appends (m ≫= k).
Proof.
  intros Hm Hk log. unfold mbind, M_bind.
  rewrite (Hm log). destruct (m []) as [[a|e] l1]; simpl.
  - rewrite (Hk a (log ++ l1)), (Hk a l1). simpl. now rewrite app_assoc.
  - reflexivity.
Qed.

Lemma bind_returned (m : M A) (k : A -> M B) log b log' :
  (m ≫= k) log = (Returned b, log') ->
  exists a log1, m log = (Returned a, log1) /\ k a log1 = (Returned b, log').
Proof.
  unfold mbind, M_bind. destruct (m log) as [[a|e] l1]; intros H.
  - eauto.
  - discriminate.
Qed.

Lemma bind_run_returned (m : M A) (k : A -> M B) a l1 :
  m [] = (Returned a, l1) -> appends (k a) ->
  (m ≫= k) [] = (fst (k a []), l1 ++ snd (k a [])).
Proof.
  intros Hm Hk. unfold mbind, M_bind. rewrite Hm. apply Hk.
Qed.

End HandlerLaws.

#[global] Hint Resolve appends_ret appends_lift appends_raise appends_perform
  : handler.

Lemma appends_for_enumerate {A} (body : nat -> A -> M unit) i l :
  (forall i x, appends (body i x)) -> appends (for_enumerate body i l).
Proof.
  intros Hb. revert i. induction l as [|x l IH]; intros i; simpl.
  - apply appends_ret.
  - apply appends_bind; auto.
Qed.

Lemma appends_for_range {A} (body : nat -> M A) idxs :
  (forall i, appends (body i)) -> appends (for_range body idxs).
Proof.
  intros Hb. induction idxs as [|i idxs IH]; simpl.
  - apply appends_ret.
  - apply appends_bind; [auto|]. intros x.
    apply appends_bind; [auto|]. intros xs. apply appends_ret.
Qed.

Ltac appends_tac :=
  repeat first
    [ progress eauto with handler
    | apply appends_bind; [|intros]
    | apply appends_for_enumerate; intros
    | apply appends_for_range; intros
    | match goal with
      | |- appends (match ?x with _ => _ end) => destruct x
      | |- appends (if ?b then _ else _) => destruct b
      | |- appends (let '(_, _) := ?x in _) => destruct x
      end ].

Lemma appends_probe_fps w video_bytes : appends (probe_fps w video_bytes).
Proof. unfold probe_fps. appends_tac. Qed.

Lemma appends_dispatch w order chunks width height :
  appends (Modal.dispatch w order chunks width height).
Proof. unfold Modal.dispatch. appends_tac. Qed.

#[global] Hint Resolve appends_probe_fps appends_dispatch : handler.

Lemma appends_render_one w frame_names video_segments frame_idx :
  appends (Runpod.render_one w frame_names video_segments frame_idx).
Proof. unfold Runpod.render_one. appends_tac. Qed.

#[global] Hint Resolve appends_render_one : handler.

Lemma appends_render_masks w frame_names :
  appends (Runpod.render_masks w frame_names).
Proof. unfold Runpod.render_masks. appends_tac. Qed.

#[global] Hint Resolve appends_render_masks : handler.

Lemma appends_segment w order data : appends (Modal.segment w order data).
Proof.
  unfold Modal.segment. appends_tac.
Qed.

Section Coroutine.
Context {A : Type} (body : M A).

Lemma appends_coroutine : appends body -> appends (coroutine body).
Proof.
  intros H log. unfold coroutine. rewrite (H log).
  destruct (body []) as [[a|e] l]; reflexivity.
Qed.

Lemma coroutine_returned a log :
  run (coroutine body) = (Returned a, log) <-> run body = (Returned a, log).
Proof.
  unfold run, coroutine. destruct (body []) as [[a'|e] l]; split; intros H;
    first [discriminate H | exact H].
Qed.

Lemma coroutine_returns a :
  fst (run body) = Returned a -> fst (run (coroutine body)) = Returned a.
Proof.
  unfold run, coroutine. destruct (body []) as [[a'|e] l]; simpl; intros H;
    first [discriminate H | exact H].
Qed.

Lemma coroutine_raises e :
  fst (run body) = Raised e ->
  fst (run (coroutine body)) = Raised (coroutine_exit e).
Proof.
  unfold run, coroutine. destruct (body []) as [[a'|e'] l]; simpl; intros H;
    [discriminate H|]. now injection H as ->.
Qed.

Lemma coroutine_log : snd (run (coroutine body)) = snd (run body).
Proof.
  unfold run, coroutine. now destruct (body []) as [[a'|e'] l].
Qed.

End Coroutine.

Lemma appends_segment_video_body w data :
  appends (Runpod.segment_video_body w data).
Proof.
  unfold Runpod.segment_video_body. appends_tac.
Qed.

Lemma appends_segment_video w data : appends (Runpod.segment_video w data).
Proof.
  apply appends_coroutine, appends_segment_video_body.
Qed.

Lemma segment_video_body_returned w data resp log :
  run (Runpod.segment_video w data) = (Returned resp, log) ->
  run (Runpod.segment_video_body w data) = (Returned resp, log).
Proof. unfold Runpod.segment_video. apply coroutine_returned. Qed.

(** ** The request preamble *)

Lemma contains_app_sep c pre post :
  Str.contains c (pre +:+ String c post) = true.
Proof.
  induction pre as [|d pre IH]; simpl.
  - now rewrite Ascii.eqb_refl.
  - destruct (Ascii.eqb d c); [reflexivity|exact IH].
Qed.

Lemma split1_app_sep c pre post :
  Str.contains c pre = false ->
  Str.split1 c (pre +:+ String c post) = [pre; post].
Proof.
  induction pre as [|d pre IH]; simpl.
  - now rewrite Ascii.eqb_refl.
  - destruct (Ascii.eqb d c); [discriminate|].
    intros H. now rewrite IH.
Qed.

Lemma strip_prefix_comma pre post :
  Str.contains ","%char pre = false ->
  strip_prefix (PStr (pre +:+ String ","%char post)) = Returned post.
Proof.
  intros H. unfold strip_prefix.
  now rewrite contains_app_sep, split1_app_sep.
Qed.

Lemma strip_prefix_plain s :
  Str.contains ","%char s = false -> strip_prefix (PStr s) = Returned s.
Proof. intros H. unfold strip_prefix. now rewrite H. Qed.

Lemma truthy_str s : s <> EmptyString -> truthy (PStr s) = true.
Proof. intros H. simpl. now destruct s. Qed.

(** Once the payload is a non-empty string, both handlers hand
    [strip_prefix] of it to the decoder before anything else. *)
Lemma segment_decodes_first w order data s x :
  data !! "video_base64"%string = Some (PStr s) -> s <> EmptyString ->
  strip_prefix (PStr s) = Returned x ->
  exists rest,
    snd (run (Modal.segment w order data)) = EB64Decode x :: rest.
Proof.
  intros Hd Hs Hx.
  unfold run, Modal.segment, get_payload. rewrite Hd.
  change (default (PStr "") (Some (PStr s))) with (PStr s).
  rewrite truthy_str by done. change (negb true) with false. cbv iota.
  rewrite Hx.
  erewrite (bind_run_returned (lift (Returned x))); [|reflexivity|appends_tac].
  erewrite (bind_run_returned (perform _)); [|reflexivity|appends_tac].
  simpl. eauto.
Qed.

Lemma segment_video_decodes_first w data s x :
  data !! "video_base64"%string = Some (PStr s) -> s <> EmptyString ->
  strip_prefix (PStr s) = Returned x ->
  exists rest,
    snd (run (Runpod.segment_video w data)) = EB64Decode x :: rest.
Proof.
  intros Hd Hs Hx.
  unfold Runpod.segment_video. rewrite coroutine_log.
  unfold run, Runpod.segment_video_body, get_payload. rewrite Hd.
  change (default (PStr "") (Some (PStr s))) with (PStr s).
  rewrite truthy_str by done. change (negb true) with false. cbv iota.
  rewrite Hx.
  erewrite (bind_run_returned (lift (Returned x))); [|reflexivity|appends_tac].
  erewrite (bind_run_returned (perform _)); [|reflexivity|appends_tac].
  simpl. eauto.
Qed.

(** C9. A request whose [video_base64] is missing or the empty string is
    answered at once with the error response by both endpoints, and the
    log of side effects is empty: nothing was decoded, written, probed,
    extracted or encoded. *)
Theorem empty_payload_no_processing w order data :
  data !! "video_base64"%string = None \/
  data !! "video_base64"%string = Some (PStr "") ->
  run (Modal.segment w order data)
    = (Returned (error_response "No video_base64 provided"), []) /\
  run (Runpod.segment_video w data)
    = (Returned (error_response "No video_base64 provided"), []).
Proof.
  intros [H|H];
    unfold run, Modal.segment, Runpod.segment_video, coroutine,
      Runpod.segment_video_body, get_payload;
    rewrite H; split; reflexivity.
Qed.

(** C10. For a non-empty string payload, both endpoints pass to the
    base64 decoder exactly what follows the first comma when there is
    one, whatever precedes it, and the payload itself when there is
    none. *)
Theorem payload_prefix_stripped w order data s :
  data !! "video_base64"%string = Some (PStr s) -> s <> EmptyString ->
  (forall pre post,
      s = pre +:+ String ","%char post ->
      Str.contains ","%char pre = false ->
      (exists rest,
          snd (run (Modal.segment w order data)) = EB64Decode post :: rest) /\
      (exists rest,
          snd (run (Runpod.segment_video w data)) = EB64Decode post :: rest)) /\
  (Str.contains ","%char s = false ->
      (exists rest,
          snd (run (Modal.segment w order data)) = EB64Decode s :: rest) /\
      (exists rest,
          snd (run (Runpod.segment_video w data)) = EB64Decode s :: rest)).
Proof.
  intros Hd Hs. split.
  - intros pre post -> Hpre.
    pose proof (strip_prefix_comma pre post Hpre) as Hx.
    split; [eapply segment_decodes_first|eapply segment_video_decodes_first];
      eauto.
  - intros Hno. pose proof (strip_prefix_plain s Hno) as Hx.
    split; [eapply segment_decodes_first|eapply segment_video_decodes_first];
      eauto.
Qed.

(** ** The worker *)

Section ForEach.
Context {A B : Type} (f : A -> outcome B).

Lemma for_each_returned l ys :
  for_each f l = Returned ys ->
  length ys = length l /\
  forall i x, l !! i = Some x ->
    exists y, f x = Returned y /\ ys !! i = Some y.
Proof.
  revert ys. induction l as [|x l IH]; intros ys; simpl.
  - intros [= <-]. split; [reflexivity|]. intros i x H. discriminate.
  - unfold mbind, outcome_bind. destruct (f x) as [y|e] eqn:Hfx; [|discriminate].
    destruct (for_each f l) as [ys'|e]; [|discriminate].
    intros [= <-]. destruct (IH ys' eq_refl) as [Hlen Hall].
    split; [simpl; congruence|].
    intros [|i] x' Hi; simpl in *.
    + injection Hi as <-. eauto.
    + eauto.
Qed.

Lemma for_each_total l :
  (forall x, x ∈ l -> exists y, f x = Returned y) ->
  exists ys, for_each f l = Returned ys.
Proof.
  induction l as [|x l IH]; intros Hall; simpl.
  - eauto.
  - destruct (Hall x) as [y Hy]; [left|].
    destruct IH as [ys Hys]; [intros; apply Hall; now right|].
    unfold mbind, outcome_bind. rewrite Hy, Hys. eauto.
Qed.

Lemma for_each_ext (g : A -> outcome B) l :
  (forall x, x ∈ l -> f x = g x) -> for_each f l = for_each g l.
Proof.
  induction l as [|x l IH]; intros H; simpl; [reflexivity|].
  rewrite (H x) by left. rewrite IH; [reflexivity|].
  intros; apply H; now right.
Qed.

End ForEach.

Lemma zeros_all_black h w : all_black (Np.zeros h w).
Proof.
  unfold all_black, Np.zeros.
  apply Forall_replicate, Forall_replicate. reflexivity.
Qed.

Lemma zeros_has_shape h w : has_shape h w (Np.zeros h w).
Proof.
  unfold has_shape, Np.zeros. split; [apply length_replicate|].
  apply Forall_replicate. split; [apply length_replicate|].
  apply Forall_replicate. reflexivity.
Qed.

Lemma assign_white_total h w img mask :
  indexable h w mask -> exists img', Np.assign_white h w img mask = Returned img'.
Proof.
  destruct mask as [b|v|m]; simpl.
  - eauto.
  - intros ->. rewrite Nat.eqb_refl. eauto.
  - intros [-> Hrows]. rewrite Nat.eqb_refl. simpl.
    assert (forallb (fun row : list bool => length row =? w) m = true) as ->.
    { apply forallb_forall. intros row Hin.
      rewrite Forall_forall in Hrows. apply Nat.eqb_eq, Hrows.
      now apply list_elem_of_In. }
    eauto.
Qed.

Lemma paint_all_total h w masks img :
  Forall (fun mask => indexable h w (Np.squeeze mask)) masks ->
  exists img', paint_all h w masks img = Returned img'.
Proof.
  intros Hall. revert img. induction Hall as [|mask masks Hm _ IH]; intros img.
  - simpl. eauto.
  - simpl. destruct (assign_white_total h w img _ Hm) as [img1 ->].
    unfold mbind, outcome_bind. apply IH.
Qed.

Lemma render_frame_total h w video_segments frame_idx :
  segments_indexable h w video_segments ->
  exists img, render_frame h w video_segments frame_idx = Returned img.
Proof.
  intros Hok. unfold render_frame.
  destruct (video_segments !! frame_idx) as [d|] eqn:Hd; [|eauto].
  apply paint_all_total. apply Forall_fmap, Forall_forall.
  intros [obj_id mask] Hin. simpl.
  apply elem_of_map_to_list in Hin. eauto.
Qed.

Lemma render_frame_absent h w video_segments frame_idx :
  video_segments !! frame_idx = None ->
  render_frame h w video_segments frame_idx = Returned (Np.zeros h w).
Proof. intros H. unfold render_frame. now rewrite H. Qed.

(** The worker, given what the propagation loop collected. *)
Lemma segment_chunk_renders w frame_jpegs width height video_segments :
  track w frame_jpegs width height = Returned video_segments ->
  segments_indexable height width video_segments ->
  exists mask_pngs,
    Modal.segment_chunk w frame_jpegs width height = Returned mask_pngs /\
    length mask_pngs = length frame_jpegs /\
    forall frame_idx, frame_idx < length frame_jpegs ->
      exists mask_img,
        render_frame height width video_segments frame_idx = Returned mask_img /\
        mask_pngs !! frame_idx = Some (png_encode w mask_img) /\
        (video_segments !! frame_idx = None ->
           mask_img = Np.zeros height width /\
           all_black mask_img /\ has_shape height width mask_img).
Proof.
  intros Htrack Hok. unfold Modal.segment_chunk. rewrite Htrack.
  unfold mbind at 1, outcome_bind at 1.
  set (body := render_png w height width video_segments).
  destruct (for_each_total body (seq 0 (length frame_jpegs))) as [pngs Hpngs].
  { intros i _. unfold body, render_png.
    destruct (render_frame_total height width video_segments i Hok) as [img ->].
    unfold mbind, outcome_bind. eauto. }
  exists pngs. split; [exact Hpngs|].
  destruct (for_each_returned body _ _ Hpngs) as [Hlen Hall].
  rewrite length_seq in Hlen. split; [exact Hlen|].
  intros i Hi.
  destruct (Hall i i) as [png [Hbody Hpng]].
  { now apply lookup_seq. }
  unfold body, render_png in Hbody.
  destruct (render_frame height width video_segments i) as [img|e] eqn:Himg;
    [|discriminate].
  unfold mbind, outcome_bind in Hbody. injection Hbody as <-.
  exists img. repeat split; try done.
  - rewrite render_frame_absent in Himg by done. congruence.
  - rewrite render_frame_absent in Himg by done.
    injection Himg as <-. apply zeros_all_black.
  - rewrite render_frame_absent in Himg by done.
    injection Himg as <-. apply zeros_has_shape.
  - rewrite render_frame_absent in Himg by done.
    injection Himg as <-. apply zeros_has_shape.
Qed.

(** ** The pooled map and the dispatcher *)

Section PoolMap.
Context {A B : Type} (f : A -> outcome B).

Lemma for_each_seq_lookup (pick : option A -> outcome B) inputs :
  (forall x, pick (Some x) = f x) ->
  for_each (fun i => pick (inputs !! i)) (seq 0 (length inputs))
  = for_each f inputs.
Proof.
  intros Hpick.
  enough (forall k pre, length pre = k ->
            for_each (fun i => pick ((pre ++ inputs) !! i))
                     (seq k (length inputs))
            = for_each f inputs) as H by (apply (H 0 []); reflexivity).
  induction inputs as [|x l IH]; intros k pre Hk; simpl; [reflexivity|].
  rewrite list_lookup_middle by done. rewrite Hpick.
  replace (pre ++ x :: l) with ((pre ++ [x]) ++ l)
    by (now rewrite <- app_assoc).
  rewrite (IH (S k) (pre ++ [x])); [reflexivity|].
  rewrite length_app. simpl. lia.
Qed.

Lemma pool_map_in_order order inputs :
  order ≡ₚ seq 0 (length inputs) ->
  Modal.pool_map order f inputs = for_each f inputs.
Proof.
  intros Hperm. unfold Modal.pool_map.
  set (completed := omap _ order).
  rewrite <- (for_each_seq_lookup
                (fun o => match o with
                          | Some x => f x
                          | None => Raised WorkerLost
                          end)) by reflexivity.
  apply for_each_ext. intros i Hi.
  apply elem_of_seq in Hi as [_ Hi]. simpl in Hi.
  destruct (lookup_lt_is_Some_2 inputs i Hi) as [x Hx]. rewrite Hx.
  assert ((i, f x) ∈ completed) as Hin.
  { apply list_elem_of_omap. exists i. split.
    - rewrite Hperm. apply elem_of_seq. lia.
    - now rewrite Hx. }
  destruct (list_find_elem_of (fun r => fst r = i) completed (i, f x)
              Hin eq_refl) as [[j [i' r]] Hfind].
  rewrite Hfind.
  apply list_find_Some in Hfind as (Hj & Hfst & _). simpl in Hfst. subst i'.
  apply list_elem_of_lookup_2 in Hj.
  apply list_elem_of_omap in Hj as (i'' & _ & Hi'').
  destruct (inputs !! i'') as [x'|] eqn:Hx'; [|discriminate].
  simpl in Hi''. injection Hi'' as -> <-. congruence.
Qed.

End PoolMap.

Lemma concat_lookup_uniform {X} c (ls : list (list X)) k l j :
  ls !! k = Some l -> j < length l ->
  (forall k' l', k' < k -> ls !! k' = Some l' -> length l' = c) ->
  concat ls !! (k * c + j) = l !! j.
Proof.
  revert k. induction ls as [|l0 ls IH]; intros k Hk Hj Hbefore; [done|].
  destruct k as [|k]; simpl in *.
  - injection Hk as ->. now apply lookup_app_l.
  - assert (length l0 = c) as Hl0 by (apply (Hbefore 0); [lia|reflexivity]).
    rewrite lookup_app_r by lia.
    replace (c + k * c + j - length l0) with (k * c + j) by lia.
    apply IH; [done..|].
    intros k' l' Hlt Hl'. apply (Hbefore (S k')); [lia|exact Hl'].
Qed.

Lemma for_each_shape {X Y} (f : list X -> outcome (list Y)) chunks rs :
  for_each f chunks = Returned rs ->
  (forall chunk r, f chunk = Returned r -> length r = length chunk) ->
  length (concat rs) = length (concat chunks) /\
  forall k chunk, chunks !! k = Some chunk ->
    exists r, f chunk = Returned r /\ rs !! k = Some r /\
              length r = length chunk.
Proof.
  intros Hrs Hlen.
  destruct (for_each_returned f _ _ Hrs) as [Hn Hall].
  split.
  - clear Hall Hn. revert rs Hrs.
    induction chunks as [|ch chunks IH]; intros rs; simpl.
    + now intros [= <-].
    + unfold mbind, outcome_bind.
      destruct (f ch) as [r|] eqn:Hr; [|discriminate].
      destruct (for_each f chunks) as [rs'|]; [|discriminate].
      intros [= <-]. simpl. rewrite !length_app.
      rewrite (Hlen _ _ Hr), (IH rs' eq_refl). reflexivity.
  - intros k chunk Hk. destruct (Hall k chunk Hk) as [r [Hr Hrk]]. eauto.
Qed.

Lemma segment_chunk_length w chunk width height masks :
  Modal.segment_chunk w chunk width height = Returned masks ->
  length masks = length chunk.
Proof.
  unfold Modal.segment_chunk.
  destruct (track w chunk width height) as [segs|]; [|discriminate].
  unfold mbind at 1, outcome_bind at 1. intros H.
  apply for_each_returned in H as [H _]. now rewrite length_seq in H.
Qed.

(** What the dispatcher computes, whichever branch it takes and in
    whichever order pooled workers complete. *)
Lemma dispatch_value w order chunks width height :
  chunks <> [] ->
  order ≡ₚ seq 0 (length chunks) ->
  fst (run (Modal.dispatch w order chunks width height))
  = (for_each (fun chunk => Modal.segment_chunk w chunk width height) chunks
     ≫= fun chunk_results => Returned (concat chunk_results)).
Proof.
  intros Hne Hperm. unfold run, Modal.dispatch.
  destruct (Nat.eqb_spec (length chunks) 1) as [H1|H1].
  - destruct chunks as [|chunk [|? ?]]; try discriminate. simpl.
    unfold mbind, M_bind, outcome_bind, lift, perform. simpl.
    destruct (Modal.segment_chunk w chunk width height); simpl;
      [now rewrite app_nil_r|reflexivity].
  - unfold mbind, M_bind, outcome_bind, lift, perform. simpl.
    rewrite pool_map_in_order by done.
    now destruct (for_each _ chunks).
Qed.

Lemma split_chunks_nonempty {frame} (frames : list frame) :
  frames <> [] -> split_chunks frames <> [].
Proof.
  intros Hne Hnil. pose proof (split_chunks_le_num_chunks frames Hne) as [H _].
  rewrite Hnil in H. simpl in H. lia.
Qed.

Lemma split_chunks_full_before {frame} (frames : list frame) k k' chunk chunk' :
  frames <> [] ->
  split_chunks frames !! k = Some chunk ->
  split_chunks frames !! k' = Some chunk' -> k' < k ->
  length chunk' = frames_per_chunk_of (length frames).
Proof.
  intros Hne Hk Hk' Hlt.
  destruct (split_chunks_lookup frames k chunk Hne Hk) as [_ Hin].
  destruct (split_chunks_lookup frames k' chunk' Hne Hk') as [-> _].
  rewrite slice_length. nia.
Qed.

(** C4. For a non-empty frame sequence whose chunks the workers all
    process, the dispatcher returns a mask sequence with one entry per
    source frame; entry [i] is the worker's output at the position that
    source frame [i] holds in its chunk; and the sequence is the same for
    every order in which the pooled workers complete. *)
Theorem dispatch_preserves_frame_order w order frames width height :
  frames <> [] ->
  order ≡ₚ seq 0 (length (split_chunks frames)) ->
  (forall chunk, chunk ∈ split_chunks frames ->
     exists ms, Modal.segment_chunk w chunk width height = Returned ms) ->
  exists masks,
    fst (run (Modal.dispatch w order (split_chunks frames) width height))
      = Returned masks /\
    length masks = length frames /\
    (forall i, i < length frames ->
       let c := frames_per_chunk_of (length frames) in
       exists chunk ms,
         split_chunks frames !! (i / c) = Some chunk /\
         chunk !! (i mod c) = frames !! i /\
         Modal.segment_chunk w chunk width height = Returned ms /\
         masks !! i = ms !! (i mod c)) /\
    (forall order',
       order' ≡ₚ seq 0 (length (split_chunks frames)) ->
       fst (run (Modal.dispatch w order' (split_chunks frames) width height))
         = Returned masks).
Proof.
  intros Hne Hperm Hworkers.
  pose proof (split_chunks_nonempty frames Hne) as Hcne.
  destruct (for_each_total
              (fun chunk => Modal.segment_chunk w chunk width height)
              (split_chunks frames)) as [rs Hrs]; [exact Hworkers|].
  destruct (for_each_shape _ _ _ Hrs) as [Hlen Hall].
  { intros chunk r. apply segment_chunk_length. }
  exists (concat rs).
  assert (forall o, o ≡ₚ seq 0 (length (split_chunks frames)) ->
            fst (run (Modal.dispatch w o (split_chunks frames) width height))
            = Returned (concat rs)) as Hval.
  { intros o Ho. rewrite dispatch_value by done. now rewrite Hrs. }
  assert (concat (split_chunks frames) = frames) as Hcat.
  { unfold split_chunks. rewrite chunk_loop_concat.
    - apply drop_0.
    - apply frames_per_chunk_pos. destruct frames; simpl; [done|lia].
    - lia. }
  split; [auto|]. split; [now rewrite Hlen, Hcat|]. split; [|exact Hval].
  intros i Hi c.
  assert (0 < c) as Hc.
  { apply frames_per_chunk_pos. lia. }
  pose proof (Nat.div_mod_eq i c) as Hdm.
  pose proof (Nat.mod_upper_bound i c ltac:(lia)) as Hmod.
  assert (i / c < length (split_chunks frames)) as Hk.
  { rewrite split_chunks_length by done. fold c.
    pose proof (ceil_div_bounds (length frames) c Hc) as [_ Hup]. nia. }
  destruct (lookup_lt_is_Some_2 _ _ Hk) as [chunk Hchunk].
  destruct (Hall _ _ Hchunk) as (ms & Hms & Hrk & Hmslen).
  destruct (split_chunks_lookup frames _ chunk Hne Hchunk) as [Hslice Hstart].
  fold c in Hslice, Hstart.
  assert (i mod c < length chunk) as Hj.
  { rewrite Hslice, slice_length. nia. }
  exists chunk, ms. split; [exact Hchunk|]. split; [|split; [exact Hms|]].
  - rewrite Hslice, slice_lookup by done. f_equal. lia.
  - replace i with (i / c * c + i mod c) at 1 by lia.
    apply (concat_lookup_uniform c); [exact Hrk|lia|].
    intros k' r' Hlt Hr'.
    pose proof (lookup_lt_Some _ _ _ Hr') as Hk'.
    destruct (for_each_returned _ _ _ Hrs) as [Hn _]. rewrite Hn in Hk'.
    destruct (lookup_lt_is_Some_2 _ _ Hk') as [chunk' Hchunk'].
    destruct (Hall _ _ Hchunk') as (r'' & _ & Hr'' & Hlen'').
    rewrite Hr' in Hr''. injection Hr'' as <-. rewrite Hlen''.
    now apply (split_chunks_full_before frames (i / c) k' chunk chunk').
Qed.

(** C6. On the chunks of a non-empty frame sequence the dispatcher takes
    exactly one of two paths: with a single chunk it calls the worker
    in-process on that chunk and never the pooled map; it calls the pooled
    map only with two or more chunks, and then never the in-process
    worker. *)
Theorem single_chunk_runs_locally w order frames width height :
  frames <> [] ->
  let chunks := split_chunks frames in
  let result := run (Modal.dispatch w order chunks width height) in
  (length chunks = 1 /\
   exists chunk, chunks = [chunk] /\
     snd result = [ELocal chunk] /\
     fst result = Modal.segment_chunk w chunk width height) \/
  (2 <= length chunks /\ snd result = [EMap chunks]).
Proof.
  intros Hne chunks result.
  pose proof (split_chunks_le_num_chunks frames Hne) as [Hge _].
  fold chunks in Hge. unfold result, run, Modal.dispatch.
  destruct (Nat.eqb_spec (length chunks) 1) as [H1|H1].
  - left. split; [exact H1|].
    destruct chunks as [|chunk [|? ?]]; try discriminate.
    exists chunk. split; [reflexivity|]. simpl.
    unfold mbind, M_bind, lift, perform. simpl. split; reflexivity.
  - right. split; [lia|].
    unfold mbind, M_bind, lift, perform. simpl.
    now destruct (Modal.pool_map _ _ _).
Qed.

(** ** What a handler run that returns has gone through *)

Ltac invert_run :=
  repeat match goal with
  | H : (_ ≫= _) _ = (Returned _, _) |- _ =>
      apply bind_returned in H as (? & ? & ? & H)
  | H : lift _ _ = (Returned _, _) |- _ =>
      unfold lift in H; injection H as H ?; subst
  | H : perform _ _ = (_, _) |- _ =>
      unfold perform in H; injection H as ? ?; subst
  | H : mret _ _ = (_, _) |- _ =>
      unfold mret, M_ret in H; injection H as ? ?; subst
  | H : raise _ _ = (Returned _, _) |- _ => discriminate H
  | H : (match ?x with _ => _ end) _ = (Returned _, _) |- _ =>
      destruct x eqn:?
  | H : (if ?b then _ else _) _ = (Returned _, _) |- _ =>
      destruct b eqn:?
  end.

Lemma segment_returned w order data resp log :
  run (Modal.segment w order data) = (Returned resp, log) ->
  resp = error_response "No video_base64 provided" \/
  resp = error_response "No frames extracted from video" \/
  exists x video_bytes frames fps masks stderr result_bytes,
    strip_prefix (get_payload data)
      = Returned x /\
    b64decode w x = Returned video_bytes /\
    ffmpeg_extract w video_bytes = Some frames /\ frames <> [] /\
    ffmpeg_encode w fps masks = (0%Z, stderr, result_bytes) /\
    resp = Modal.success_response w frames fps result_bytes.
Proof.
  unfold run, Modal.segment. intros H.
  destruct (negb (truthy _)).
  { invert_run. now left. }
  invert_run.
  - now right; left.
  - right; right.
    match goal with
    | H : ffmpeg_encode _ _ _ = (?rc, _, _) |- _ =>
        assert (rc = 0%Z) as -> by (destruct (Z.eqb_spec rc 0); [done|discriminate])
    end.
    do 7 eexists. repeat (split; [eassumption || done|]). reflexivity.
Qed.

Lemma segment_video_returned w data resp log :
  run (Runpod.segment_video w data) = (Returned resp, log) ->
  resp = error_response "No video_base64 provided" \/
  resp = error_response "No frames extracted from video" \/
  (exists fps masks returncode stderr result_bytes,
     ffmpeg_encode w fps masks = (returncode, stderr, result_bytes) /\
     returncode <> 0%Z /\
     resp = error_response
              ("ffmpeg encode failed: " +:+ Py.str_suffix 500 stderr)) \/
  exists x video_bytes frames fps masks stderr result_bytes,
    strip_prefix (get_payload data)
      = Returned x /\
    b64decode w x = Returned video_bytes /\
    ffmpeg_extract w video_bytes = Some frames /\ frames <> [] /\
    ffmpeg_encode w fps masks = (0%Z, stderr, result_bytes) /\
    resp = Runpod.success_response w frames fps result_bytes.
Proof.
  intros H. apply segment_video_body_returned in H. revert H.
  unfold run, Runpod.segment_video_body. intros H.
  destruct (negb (truthy _)).
  { invert_run. now left. }
  invert_run.
  - now right; left.
  - right; right; left.
    match goal with
    | H : ffmpeg_encode _ _ _ = (?rc, _, _) |- _ =>
        assert (rc <> 0%Z) by (destruct (Z.eqb_spec rc 0); [discriminate|done])
    end.
    do 5 eexists. repeat (split; [eassumption || done|]). reflexivity.
  - right; right; right.
    match goal with
    | H : ffmpeg_encode _ _ _ = (?rc, _, _) |- _ =>
        assert (rc = 0%Z) as -> by (destruct (Z.eqb_spec rc 0); [done|discriminate])
    end.
    do 7 eexists. repeat (split; [eassumption || done|]). reflexivity.
Qed.

(** ** The partition, as the handler uses it *)

Lemma split_chunks_extent {frame} (frames : list frame) :
  frames <> [] ->
  let c := frames_per_chunk_of (length frames) in
  forall k chunk, split_chunks frames !! k = Some chunk ->
    chunk = Py.slice frames (k * c) (k * c + c) /\
    0 < length chunk <= c /\
    k * c + length chunk <= length frames.
Proof.
  intros Hne c k chunk Hk.
  assert (0 < length frames) as Hpos by (destruct frames; simpl; [done|lia]).
  assert (0 < c) as Hc by (apply frames_per_chunk_pos; lia).
  destruct (split_chunks_lookup frames k chunk Hne Hk) as [Hs Hlt].
  fold c in Hs, Hlt. split; [exact Hs|].
  rewrite Hs, slice_length. lia.
Qed.

(** C5. The chunks of a non-empty frame sequence concatenate, in chunk
    order, to the sequence itself; chunk [k] is the contiguous run of
    frames starting at [k * frames_per_chunk], in source order; and two
    positions in the chunks that hold the same source index are the same
    position, so no frame sits in two chunks. *)
Theorem split_chunks_partition {frame} (frames : list frame) :
  frames <> [] ->
  let c := frames_per_chunk_of (length frames) in
  concat (split_chunks frames) = frames /\
  (forall k chunk, split_chunks frames !! k = Some chunk ->
     chunk = Py.slice frames (k * c) (k * c + c) /\
     0 < length chunk <= c /\
     k * c + length chunk <= length frames /\
     forall j, j < length chunk -> chunk !! j = frames !! (k * c + j)) /\
  (forall k k' chunk chunk' j j',
     split_chunks frames !! k = Some chunk ->
     split_chunks frames !! k' = Some chunk' ->
     j < length chunk -> j' < length chunk' ->
     k * c + j = k' * c + j' -> k = k' /\ j = j').
Proof.
  intros Hne c.
  assert (0 < length frames) as Hpos by (destruct frames; simpl; [done|lia]).
  assert (0 < c) as Hc by (apply frames_per_chunk_pos; lia).
  pose proof (split_chunks_extent frames Hne) as Hchunk. fold c in Hchunk.
  split; [|split].
  - unfold split_chunks. rewrite chunk_loop_concat; [apply drop_0|exact Hc|lia].
  - intros k chunk Hk. destruct (Hchunk k chunk Hk) as (Hs & Hlen & Hend).
    repeat split; try tauto.
    intros j Hj. rewrite Hs at 1. apply slice_lookup. lia.
  - intros k k' chunk chunk' j j' Hk Hk' Hj Hj' Heq.
    destruct (Hchunk k chunk Hk) as (_ & Hlen & _).
    destruct (Hchunk k' chunk' Hk') as (_ & Hlen' & _).
    assert (k = k') by nia. subst k'. split; [reflexivity|lia].
Qed.

(** C1, amended. With capacity eight, a non-empty frame sequence is cut
    into [ceil(num_frames / frames_per_chunk)] chunks, where
    [frames_per_chunk = ceil(num_frames / min(8, num_frames))]; that count
    is at least one and at most [min(8, num_frames)], and equals it when
    there are at most eight frames; every chunk but the last has
    [frames_per_chunk] frames and the last has between one and
    [frames_per_chunk]; and the [chunks] field of a success response is
    the number of chunks the extracted frames were cut into. *)
Theorem chunk_count_and_sizes (frames : list bytes) :
  frames <> [] ->
  let n := length frames in
  let c := frames_per_chunk_of n in
  let chunks := split_chunks frames in
  c = Py.ceil_div n (Nat.min 8 n) /\
  length chunks = Py.ceil_div n c /\
  1 <= length chunks <= Nat.min 8 n /\
  (n <= 8 -> length chunks = Nat.min 8 n) /\
  (forall k chunk, chunks !! k = Some chunk ->
     1 <= length chunk <= c /\ (S k < length chunks -> length chunk = c)) /\
  (forall w order data resp log,
     run (Modal.segment w order data) = (Returned resp, log) ->
     resp !! "error"%string = None ->
     exists x video_bytes extracted,
       strip_prefix (get_payload data)
         = Returned x /\
       b64decode w x = Returned video_bytes /\
       ffmpeg_extract w video_bytes = Some extracted /\
       resp !! "num_frames"%string
         = Some (PInt (Z.of_nat (length extracted))) /\
       resp !! "chunks"%string
         = Some (PInt (Z.of_nat (length (split_chunks extracted))))).
Proof.
  intros Hne n c chunks.
  split; [reflexivity|].
  split; [now apply split_chunks_length|].
  split; [now apply split_chunks_le_num_chunks|].
  split.
  { intros Hle. unfold chunks. rewrite split_chunks_small by done.
    symmetry. now apply Nat.min_r. }
  split.
  - intros k chunk Hk.
    destruct (split_chunks_extent frames Hne k chunk Hk) as (_ & Hlen & _).
    split; [fold n c in Hlen; lia|].
    intros Hnext.
    destruct (lookup_lt_is_Some_2 chunks (S k) Hnext) as [next Hnx].
    apply (split_chunks_full_before frames (S k) k next chunk);
      [exact Hne|exact Hnx|exact Hk|lia].
  - intros w order data resp log Hrun Hnoerr.
    destruct (segment_returned w order data resp log Hrun)
      as [->|[->|Hok]]; [discriminate Hnoerr..|].
    destruct Hok as (x & vb & fs & fps & masks & stderr & out
                     & Hx & Hvb & Hfs & _ & _ & ->).
    exists x, vb, fs. repeat split; try done.
Qed.

(** ** The tracker's side of the worker's contract *)

(** A thresholded plane of the frame's own shape can index the image,
    unless the frame is one pixel high and more than one wide: squeezing
    then leaves a vector of the width, which does not match the height. *)
Lemma shaped_plane_indexable h w (m : bitplane) :
  length m = h -> Forall (fun row => length row = w) m ->
  (h = 1 -> w = 1) ->
  indexable h w (Np.squeeze m).
Proof.
  intros Hh Hw H1.
  destruct m as [|r1 [|r2 rest]].
  - simpl in *. now subst.
  - simpl in Hh. subst h. specialize (H1 eq_refl). subst w.
    apply Forall_inv in Hw. destruct r1 as [|b [|? ?]]; try discriminate.
    exact I.
  - set (m := r1 :: r2 :: rest) in *.
    change (Np.squeeze m)
      with (if forallb (fun row : list bool => length row =? 1) m
            then Sq1 (map (fun row => default false (head row)) m)
            else Sq2 m).
    destruct (forallb _ m); simpl.
    + rewrite List.length_map. exact Hh.
    + split; [exact Hh|exact Hw].
Qed.

Lemma masks_of_invariant (Q : bitplane -> Prop) i ids planes d :
  length ids + i <= length planes ->
  Forall (fun p => Q (Np.gt0 p)) planes ->
  (forall o m, d !! o = Some m -> Q m) ->
  exists d', masks_of i ids planes d = Returned d' /\
             forall o m, d' !! o = Some m -> Q m.
Proof.
  revert i d. induction ids as [|id ids IH]; intros i d Hlen Hplanes Hd; simpl.
  - eauto.
  - simpl in Hlen.
    destruct (lookup_lt_is_Some_2 planes i ltac:(lia)) as [p Hp].
    unfold Str.index. rewrite Hp. unfold mbind, outcome_bind.
    apply IH; [lia|exact Hplanes|].
    intros o m Hom. apply lookup_insert_Some in Hom as [[_ <-]|[_ Hom]].
    + rewrite Forall_forall in Hplanes. apply Hplanes.
      eapply list_elem_of_lookup_2, Hp.
    + eauto.
Qed.

Lemma collect_segments_invariant h w yields segs :
  Forall (well_formed_yield h w) yields ->
  segments_indexable h w segs ->
  exists segs', collect_segments yields segs = Returned segs' /\
                segments_indexable h w segs'.
Proof.
  intros Hy. revert segs.
  induction Hy as [|[[idx ids] planes] yields [Hlen Hplanes] _ IH];
    intros segs Hsegs; simpl.
  - eauto.
  - destruct (masks_of_invariant
                (fun m => indexable h w (Np.squeeze m)) 0 ids planes ∅)
      as (d & -> & Hd); [lia|exact Hplanes|intros o m H; discriminate|].
    unfold mbind, outcome_bind. apply IH.
    intros i d' o m Hi Ho.
    apply lookup_insert_Some in Hi as [[_ <-]|[_ Hi]]; [eauto|].
    eapply Hsegs; eauto.
Qed.


(** ** Failures: which are reported, which escape *)

Lemma run_at {A} (m : M A) o log :
  appends m -> fst (run m) = o -> m log = (o, log ++ snd (run m)).
Proof. intros Hm <-. apply Hm. Qed.

Ltac run_forward :=
  unfold run, mbind, M_bind, lift, perform, raise, mret, M_ret; cbn beta iota.

Lemma write_masks_returns masks i :
  fst (run (for_enumerate (fun i png_bytes => perform (EWriteMask i png_bytes))
                          i masks)) = Returned tt.
Proof.
  unfold run. generalize (@nil effect). revert i.
  induction masks as [|png masks IH]; intros i log; simpl; [reflexivity|].
  run_forward. apply IH.
Qed.

Lemma falsy_payload_reported w order data :
  truthy (get_payload data) = false ->
  run (Modal.segment w order data)
    = (Returned (error_response "No video_base64 provided"), []) /\
  run (Runpod.segment_video w data)
    = (Returned (error_response "No video_base64 provided"), []).
Proof.
  intros Hf.
  unfold run, Modal.segment, Runpod.segment_video, coroutine,
    Runpod.segment_video_body.
  rewrite Hf. split; reflexivity.
Qed.

Lemma preamble_failure_escapes w order data e :
  truthy (get_payload data) = true ->
  strip_prefix (get_payload data) = Raised e ->
  run (Modal.segment w order data) = (Raised e, []) /\
  run (Runpod.segment_video w data) = (Raised (coroutine_exit e), []).
Proof.
  intros Ht He.
  unfold run, Modal.segment, Runpod.segment_video, coroutine,
    Runpod.segment_video_body.
  rewrite Ht. cbn [negb]. rewrite He. split; reflexivity.
Qed.

Section Failures.
Variables (w : world) (order : list nat) (data : gmap string pyval).
Variables (x : string) (video_bytes : bytes).
Hypothesis Htruthy : truthy (get_payload data) = true.
Hypothesis Hstrip : strip_prefix (get_payload data) = Returned x.

Lemma decode_failure_escapes e :
  b64decode w x = Raised e ->
  fst (run (Modal.segment w order data)) = Raised e /\
  fst (run (Runpod.segment_video w data)) = Raised (coroutine_exit e).
Proof.
  intros He. split; [|apply coroutine_raises];
    unfold Modal.segment, Runpod.segment_video_body;
    rewrite Htruthy; cbn [negb]; run_forward;
    rewrite Hstrip, He; reflexivity.
Qed.

Hypothesis Hdecode : b64decode w x = Returned video_bytes.

Ltac enter_modal :=
  unfold Modal.segment; rewrite Htruthy; cbn [negb];
  run_forward; rewrite Hstrip, Hdecode.

Ltac enter_runpod :=
  first [apply coroutine_raises | apply coroutine_returns];
  unfold Runpod.segment_video_body; rewrite Htruthy; cbn [negb];
  run_forward; rewrite Hstrip, Hdecode.

Lemma modal_probe_failure_escapes e :
  fst (run (probe_fps w video_bytes)) = Raised e ->
  fst (run (Modal.segment w order data)) = Raised e.
Proof.
  intros Hp. enter_modal.
  now rewrite (run_at (probe_fps w video_bytes) (Raised e))
    by auto with handler.
Qed.

Lemma runpod_extract_failure_escapes :
  ffmpeg_extract w video_bytes = None ->
  fst (run (Runpod.segment_video w data)) = Raised CalledProcessError.
Proof.
  intros Hex. change CalledProcessError with (coroutine_exit CalledProcessError).
  enter_runpod. now rewrite Hex.
Qed.

Lemma runpod_no_frames_reported :
  ffmpeg_extract w video_bytes = Some [] ->
  fst (run (Runpod.segment_video w data))
  = Returned (error_response "No frames extracted from video").
Proof. intros Hex. enter_runpod. now rewrite Hex. Qed.

Lemma runpod_inference_failure_escapes frames e :
  ffmpeg_extract w video_bytes = Some frames -> frames <> [] ->
  fst (run (Runpod.render_masks w frames)) = Raised e ->
  fst (run (Runpod.segment_video w data)) = Raised (coroutine_exit e).
Proof.
  intros Hex Hne Hr. enter_runpod. rewrite Hex.
  destruct frames as [|first rest]; [done|].
  now rewrite (run_at (Runpod.render_masks w (first :: rest)) (Raised e))
    by auto with handler.
Qed.

Lemma runpod_encode_failure_reported frames masks fps rc stderr out :
  ffmpeg_extract w video_bytes = Some frames -> frames <> [] ->
  fst (run (Runpod.render_masks w frames)) = Returned masks ->
  fst (run (probe_fps w video_bytes)) = Returned fps ->
  ffmpeg_encode w fps masks = (rc, stderr, out) -> rc <> 0%Z ->
  fst (run (Runpod.segment_video w data))
  = Returned (error_response
                ("ffmpeg encode failed: " +:+ Py.str_suffix 500 stderr)).
Proof.
  intros Hex Hne Hr Hp Henc Hrc. enter_runpod. rewrite Hex.
  destruct frames as [|first rest]; [done|].
  rewrite (run_at (Runpod.render_masks w (first :: rest)) (Returned masks))
    by auto with handler.
  rewrite (run_at (probe_fps w video_bytes) (Returned fps))
    by auto with handler.
  rewrite Henc. destruct (Z.eqb_spec rc 0); [done|reflexivity].
Qed.

Lemma runpod_probe_failure_escapes frames masks e :
  ffmpeg_extract w video_bytes = Some frames -> frames <> [] ->
  fst (run (Runpod.render_masks w frames)) = Returned masks ->
  fst (run (probe_fps w video_bytes)) = Raised e ->
  fst (run (Runpod.segment_video w data)) = Raised (coroutine_exit e).
Proof.
  intros Hex Hne Hr Hp. enter_runpod. rewrite Hex.
  destruct frames as [|first rest]; [done|].
  rewrite (run_at (Runpod.render_masks w (first :: rest)) (Returned masks))
    by auto with handler.
  now rewrite (run_at (probe_fps w video_bytes) (Raised e))
    by auto with handler.
Qed.

Variable original_fps : Q.
Hypothesis Hprobe : fst (run (probe_fps w video_bytes)) = Returned original_fps.

Ltac past_probe :=
  enter_modal;
  rewrite (run_at (probe_fps w video_bytes) (Returned original_fps))
    by auto with handler.

Lemma modal_extract_failure_escapes :
  ffmpeg_extract w video_bytes = None ->
  fst (run (Modal.segment w order data)) = Raised FfmpegError.
Proof. intros Hex. past_probe. now rewrite Hex. Qed.

Lemma modal_no_frames_reported :
  ffmpeg_extract w video_bytes = Some [] ->
  fst (run (Modal.segment w order data))
  = Returned (error_response "No frames extracted from video").
Proof. intros Hex. past_probe. now rewrite Hex. Qed.

Lemma modal_inference_failure_escapes first rest width height e :
  ffmpeg_extract w video_bytes = Some (first :: rest) ->
  image_size w first = Returned (width, height) ->
  fst (run (Modal.dispatch w order (split_chunks (first :: rest))
              width height)) = Raised e ->
  fst (run (Modal.segment w order data)) = Raised e.
Proof.
  intros Hex Hsize Hd. past_probe. rewrite Hex, Hsize.
  now rewrite (run_at (Modal.dispatch w order _ width height) (Raised e))
    by auto with handler.
Qed.

Lemma modal_encode_failure first rest width height masks rc stderr out :
  ffmpeg_extract w video_bytes = Some (first :: rest) ->
  image_size w first = Returned (width, height) ->
  fst (run (Modal.dispatch w order (split_chunks (first :: rest))
              width height)) = Returned masks ->
  ffmpeg_encode w original_fps masks = (rc, stderr, out) -> rc <> 0%Z ->
  fst (run (Modal.segment w order data))
  = Raised (RuntimeError ("ffmpeg failed: " +:+ Py.str_suffix 500 stderr)).
Proof.
  intros Hex Hsize Hd Henc Hrc. past_probe. rewrite Hex, Hsize.
  rewrite (run_at (Modal.dispatch w order _ width height) (Returned masks))
    by auto with handler.
  rewrite (run_at (for_enumerate _ 0 masks) (Returned tt));
    [|appends_tac|apply write_masks_returns].
  rewrite Henc. destruct (Z.eqb_spec rc 0); [done|reflexivity].
Qed.

End Failures.

(** C3, amended. A request whose payload is missing or empty (any value
    Python counts as false) is answered with the error response by both
    endpoints.  On any other request, an exception raised while the
    payload is prepared, by base64 decoding, by the probe, by frame
    extraction or by inference is not caught: it leaves the handler, in
    both endpoints; the RunPod handler being a coroutine, a
    [StopIteration] leaves it as a [RuntimeError].  What comes back as
    an error response is the empty extraction, in both endpoints, and a
    non-zero encoder exit in the RunPod endpoint; and the only error
    responses either endpoint ever returns are those and the one for a
    missing payload. *)
Theorem failures_reported_or_raised w order data :
  let payload := get_payload data in
  let modal := fst (run (Modal.segment w order data)) in
  let runpod := fst (run (Runpod.segment_video w data)) in
  let missing := error_response "No video_base64 provided" in
  let no_frames := error_response "No frames extracted from video" in
  (truthy payload = false ->
     modal = Returned missing /\ runpod = Returned missing) /\
  (truthy payload = true ->
     (forall e, strip_prefix payload = Raised e ->
        modal = Raised e /\ runpod = Raised (coroutine_exit e)) /\
     (forall x, strip_prefix payload = Returned x ->
        (forall e, b64decode w x = Raised e ->
           modal = Raised e /\ runpod = Raised (coroutine_exit e)) /\
        (forall video_bytes, b64decode w x = Returned video_bytes ->
           let probe := fst (run (probe_fps w video_bytes)) in
           (forall e, probe = Raised e -> modal = Raised e) /\
           (ffmpeg_extract w video_bytes = None ->
              runpod = Raised CalledProcessError /\
              forall fps, probe = Returned fps -> modal = Raised FfmpegError) /\
           (ffmpeg_extract w video_bytes = Some [] ->
              runpod = Returned no_frames /\
              forall fps, probe = Returned fps -> modal = Returned no_frames) /\
           (forall first rest,
              ffmpeg_extract w video_bytes = Some (first :: rest) ->
              let frames := first :: rest in
              (forall e, fst (run (Runpod.render_masks w frames)) = Raised e ->
                 runpod = Raised (coroutine_exit e)) /\
              (forall masks e,
                 fst (run (Runpod.render_masks w frames)) = Returned masks ->
                 probe = Raised e -> runpod = Raised (coroutine_exit e)) /\
              (forall masks fps rc stderr out,
                 fst (run (Runpod.render_masks w frames)) = Returned masks ->
                 probe = Returned fps ->
                 ffmpeg_encode w fps masks = (rc, stderr, out) -> rc <> 0%Z ->
                 runpod = Returned
                            (error_response
                               ("ffmpeg encode failed: "
                                +:+ Py.str_suffix 500 stderr))) /\
              (forall fps width height e,
                 probe = Returned fps ->
                 image_size w first = Returned (width, height) ->
                 fst (run (Modal.dispatch w order (split_chunks frames)
                             width height)) = Raised e ->
                 modal = Raised e))))) /\
  (forall resp log,
     run (Modal.segment w order data) = (Returned resp, log) ->
     is_Some (resp !! "error"%string) ->
     resp = missing \/ resp = no_frames) /\
  (forall resp log,
     run (Runpod.segment_video w data) = (Returned resp, log) ->
     is_Some (resp !! "error"%string) ->
     resp = missing \/ resp = no_frames \/
     exists stderr,
       resp = error_response
                ("ffmpeg encode failed: " +:+ Py.str_suffix 500 stderr)).
Proof.
  intros payload modal runpod missing no_frames.
  split; [|split; [|split]].
  - intros Hf. destruct (falsy_payload_reported w order data Hf) as [Hm Hr].
    subst modal runpod. now rewrite Hm, Hr.
  - intros Ht. split.
    { intros e He.
      destruct (preamble_failure_escapes w order data e Ht He) as [Hm Hr].
      subst modal runpod. now rewrite Hm, Hr. }
    intros x Hx. split.
    { intros e He. eapply decode_failure_escapes; eauto. }
    intros vb Hvb probe. repeat split.
    + intros e Hp. eapply modal_probe_failure_escapes; eauto.
    + eapply runpod_extract_failure_escapes; eauto.
    + intros fps Hp. eapply modal_extract_failure_escapes; eauto.
    + eapply runpod_no_frames_reported; eauto.
    + intros fps Hp. eapply modal_no_frames_reported; eauto.
    + intros e Hr. eapply runpod_inference_failure_escapes; eauto.
    + intros masks e Hr Hp. eapply runpod_probe_failure_escapes; eauto.
    + intros masks fps rc stderr out Hr Hp Henc Hrc.
      eapply runpod_encode_failure_reported; eauto.
    + intros fps width height e Hp Hsize Hd.
      eapply modal_inference_failure_escapes; eauto.
  - intros resp log Hrun [v Hv].
    destruct (segment_returned w order data resp log Hrun)
      as [->|[->|Hok]]; [now left|now right|].
    destruct Hok as (? & ? & ? & ? & ? & ? & ? & _ & _ & _ & _ & _ & ->).
    discriminate Hv.
  - intros resp log Hrun [v Hv].
    destruct (segment_video_returned w data resp log Hrun)
      as [->|[->|[Henc|Hok]]]; [now left|now right; left|..].
    + destruct Henc as (? & ? & ? & stderr & ? & _ & _ & ->). eauto.
    + destruct Hok as (? & ? & ? & ? & ? & ? & ? & _ & _ & _ & _ & _ & ->).
      discriminate Hv.
Qed.

(** C8. When the run reaches the encoder and the encoder exits non-zero,
    [Modal.segment] does not return a response at all: it raises a
    [RuntimeError] carrying the last 500 characters of the encoder's
    stderr. *)
Theorem modal_encode_failure_raises w order data x video_bytes original_fps
    first rest width height masks rc stderr out :
  let payload := get_payload data in
  truthy payload = true ->
  strip_prefix payload = Returned x ->
  b64decode w x = Returned video_bytes ->
  fst (run (probe_fps w video_bytes)) = Returned original_fps ->
  ffmpeg_extract w video_bytes = Some (first :: rest) ->
  image_size w first = Returned (width, height) ->
  fst (run (Modal.dispatch w order (split_chunks (first :: rest)) width height))
    = Returned masks ->
  ffmpeg_encode w original_fps masks = (rc, stderr, out) ->
  rc <> 0%Z ->
  fst (run (Modal.segment w order data))
    = Raised (RuntimeError ("ffmpeg failed: " +:+ Py.str_suffix 500 stderr)) /\
  forall resp, fst (run (Modal.segment w order data)) <> Returned resp.
Proof.
  intros payload Ht Hx Hvb Hp Hex Hsize Hd Henc Hrc.
  assert (fst (run (Modal.segment w order data))
          = Raised (RuntimeError ("ffmpeg failed: " +:+ Py.str_suffix 500 stderr)))
    as Hraise by (eapply modal_encode_failure; eauto).
  split; [exact Hraise|]. intros resp. rewrite Hraise. discriminate.
Qed.

(** ** The two endpoints compared *)

Section BindSteps.
Context {A B : Type}.

Lemma bind_apply (m : M A) (k : A -> M B) log :
  (m ≫= k) log = match m log with
                 | (Returned a, log') => k a log'
                 | (Raised e, log') => (Raised e, log')
                 end.
Proof. reflexivity. Qed.

Lemma bind_lift_returned (a : A) (k : A -> M B) log :
  (lift (Returned a) ≫= k) log = k a log.
Proof. reflexivity. Qed.

Lemma bind_lift_raised e (k : A -> M B) log :
  (lift (Raised e) ≫= k) log = (Raised e, log).
Proof. reflexivity. Qed.

Lemma bind_perform ev (k : unit -> M B) log :
  (perform ev ≫= k) log = k tt (log ++ [ev]).
Proof. reflexivity. Qed.

End BindSteps.

Section OneChunk.
Variables (w : world) (frames : list bytes) (width height : nat).
Variable video_segments : gmap nat (gmap nat bitplane).
Hypothesis Hsize :
  forall f, f ∈ frames -> image_size w f = Returned (width, height).

Lemma render_one_agrees i log :
  i < length frames ->
  exists ev,
    Runpod.render_one w frames video_segments i log
    = (render_png w height width video_segments i, log ++ ev) /\
    tracked ev = [].
Proof.
  intros Hi. destruct (lookup_lt_is_Some_2 frames i Hi) as [frame Hframe].
  unfold Runpod.render_one, Str.index, render_png. rewrite Hframe.
  rewrite bind_lift_returned, bind_perform.
  rewrite (Hsize frame) by (eapply list_elem_of_lookup_2, Hframe).
  rewrite bind_lift_returned.
  destruct (render_frame height width video_segments i) as [img|e].
  - rewrite bind_lift_returned. cbn zeta. rewrite bind_perform.
    exists [EOpenImage frame; EWriteMask i (png_encode w img)]. split.
    + unfold mret, M_ret. now rewrite <- app_assoc.
    + reflexivity.
  - rewrite bind_lift_raised. exists [EOpenImage frame]. split; reflexivity.
Qed.

(** The RunPod rendering loop computes what the worker's loop does when
    all frames have the size of the first, and starts no tracking. *)
Lemma render_loop_agrees idxs log :
  (forall i, i ∈ idxs -> i < length frames) ->
  exists ev,
    for_range (Runpod.render_one w frames video_segments) idxs log
    = (for_each (render_png w height width video_segments) idxs, log ++ ev) /\
    tracked ev = [].
Proof.
  revert log. induction idxs as [|i idxs IH]; intros log Hidx.
  - exists []. simpl. unfold mret, M_ret. now rewrite app_nil_r.
  - cbn [for_range for_each]. rewrite bind_apply.
    destruct (render_one_agrees i log) as (ev1 & -> & Hev1);
      [apply Hidx; left|].
    destruct (render_png w height width video_segments i) as [png|e].
    + rewrite bind_apply.
      destruct (IH (log ++ ev1)) as (ev2 & -> & Hev2).
      { intros; apply Hidx; now right. }
      exists (ev1 ++ ev2). split.
      * unfold mbind, outcome_bind, mret, M_ret.
        destruct (for_each _ idxs); now rewrite app_assoc.
      * unfold tracked in *. now rewrite omap_app, Hev1, Hev2.
    + exists ev1. split; [reflexivity|exact Hev1].
Qed.

End OneChunk.

Lemma render_masks_is_one_chunk w frames width height :
  frames <> [] ->
  (forall f, f ∈ frames -> image_size w f = Returned (width, height)) ->
  fst (run (Runpod.render_masks w frames))
    = Modal.segment_chunk w frames width height /\
  tracked (snd (run (Runpod.render_masks w frames))) = [frames].
Proof.
  intros Hne Hsize. destruct frames as [|first rest]; [done|].
  unfold run, Runpod.render_masks, Modal.segment_chunk.
  change (Str.index (first :: rest) 0) with (Returned first).
  rewrite bind_lift_returned, bind_perform.
  rewrite (Hsize first) by left.
  rewrite bind_lift_returned, bind_perform.
  destruct (track w (first :: rest) width height) as [segs|e].
  - rewrite bind_lift_returned.
    destruct (render_loop_agrees w (first :: rest) width height segs Hsize
                (seq 0 (length (first :: rest)))
                (([] ++ [EOpenImage first]) ++ [ETrack (first :: rest)]))
      as (ev & Hloop & Hev).
    { intros i Hi. apply elem_of_seq in Hi. lia. }
    rewrite Hloop.
    split; [reflexivity|].
    cbn [snd]. unfold tracked in *. rewrite omap_app, Hev. reflexivity.
  - rewrite bind_lift_raised. split; reflexivity.
Qed.

(** C2, amended. The Modal endpoint runs the worker, and with it a
    tracking state seeded at the chunk's first frame, once per chunk of
    the partition and concatenates the results; the RunPod endpoint does
    not partition: over frames of one size it computes what a single
    worker computes on the whole frame sequence, with one tracking state
    initialised on all the frames.  The two mask sequences coincide when
    the video has a single frame. *)
Theorem runpod_is_single_chunk w order frames width height :
  frames <> [] ->
  order ≡ₚ seq 0 (length (split_chunks frames)) ->
  (forall f, f ∈ frames -> image_size w f = Returned (width, height)) ->
  let worker := fun chunk => Modal.segment_chunk w chunk width height in
  let modal :=
    fst (run (Modal.dispatch w order (split_chunks frames) width height)) in
  let runpod := run (Runpod.render_masks w frames) in
  modal = (for_each worker (split_chunks frames)
           ≫= fun chunk_results => Returned (concat chunk_results)) /\
  fst runpod = worker frames /\
  tracked (snd runpod) = [frames] /\
  (length frames = 1 -> modal = fst runpod).
Proof.
  intros Hne Hperm Hsize worker modal runpod.
  assert (modal = (for_each worker (split_chunks frames)
                   ≫= fun chunk_results => Returned (concat chunk_results)))
    as Hmodal.
  { apply dispatch_value; [now apply split_chunks_nonempty|exact Hperm]. }
  destruct (render_masks_is_one_chunk w frames width height Hne Hsize)
    as [Hrunpod Htracked].
  repeat split; try done.
  intros H1. rewrite Hmodal. unfold runpod. rewrite Hrunpod.
  destruct frames as [|f [|? ?]]; try discriminate.
  change (split_chunks [f]) with [[f]]. cbn [for_each].
  unfold mbind, outcome_bind, worker.
  destruct (Modal.segment_chunk w [f] width height) as [ms|e]; [|reflexivity].
  simpl. now rewrite app_nil_r.
Qed.

(** ** The claims that fail, at concrete inputs *)

(** C1 as stated fails on a nine-frame video: [min(8, 9)] is eight, but
    [frames_per_chunk] is [ceil(9 / 8) = 2] and [range(0, 9, 2)] has five
    steps, so five chunks are formed and the response says so. *)
Lemma nine_frames_five_chunks :
  length (split_chunks (Demo.frames_of 9))
    <> Nat.min MAX_PARALLEL_CHUNKS (length (Demo.frames_of 9)) /\
  map length (split_chunks (Demo.frames_of 9)) = [2; 2; 2; 2; 1] /\
  (fst (run (Modal.segment (Demo.video 9) [0; 1; 2; 3; 4]
                           (Demo.request "AAAA")))
     ≫= fun resp => Returned (resp !! "chunks"%string))
    = Returned (Some (PInt 5)).
Proof.
  split; [|split].
  - vm_compute. discriminate.
  - vm_compute. reflexivity.
  - vm_compute. reflexivity.
Qed.

(** C2 as stated fails on a two-frame video: the Modal endpoint cuts it
    into two chunks and seeds a tracking state on each, the RunPod
    endpoint initialises one tracking state on both frames, and with a
    tracker that loses the object after the frame it was seeded on the two
    write different masks for the second frame. *)
Lemma two_frames_masks_differ :
  let modal := run (Modal.segment (Demo.video 2) [0; 1] (Demo.request "AAAA")) in
  let runpod := run (Runpod.segment_video (Demo.video 2) (Demo.request "AAAA")) in
  masks_written (snd modal) <> masks_written (snd runpod) /\
  split_chunks (Demo.frames_of 2) = [[[Byte.x00]]; [[Byte.x01]]] /\
  tracked (snd runpod) = [[[Byte.x00]; [Byte.x01]]].
Proof.
  split; [|split].
  - vm_compute. discriminate.
  - vm_compute. reflexivity.
  - vm_compute. reflexivity.
Qed.

(** C3 as stated fails when the probe rejects the input: neither endpoint
    returns a response, both let the probe's exception out. *)
Lemma probe_failure_escapes_both :
  ~ (exists resp,
       fst (run (Modal.segment Demo.unprobeable [0; 1] (Demo.request "AAAA")))
       = Returned resp) /\
  ~ (exists resp,
       fst (run (Runpod.segment_video Demo.unprobeable (Demo.request "AAAA")))
       = Returned resp).
Proof.
  split; intros [resp H]; vm_compute in H; discriminate H.
Qed.

(** ** The theorems at concrete inputs *)

Lemma chunk_count_and_sizes_witness :
  Demo.frames_of 100 <> [] /\
  length (split_chunks (Demo.frames_of 100)) = 8 /\
  1 <= length (split_chunks (Demo.frames_of 100)) <= 8.
Proof.
  assert (Demo.frames_of 100 <> []) as Hne by (vm_compute; discriminate).
  split; [exact Hne|].
  destruct (chunk_count_and_sizes (Demo.frames_of 100) Hne)
    as (_ & Hlen & Hbounds & _).
  split; [exact Hlen|exact Hbounds].
Defined.

Lemma runpod_is_single_chunk_witness :
  Demo.frames_of 2 <> [] /\
  [1; 0] ≡ₚ seq 0 (length (split_chunks (Demo.frames_of 2))) /\
  tracked (snd (run (Runpod.render_masks (Demo.video 2) (Demo.frames_of 2))))
    = [Demo.frames_of 2].
Proof.
  assert (Demo.frames_of 2 <> []) as Hne by (vm_compute; discriminate).
  assert ([1; 0] ≡ₚ seq 0 (length (split_chunks (Demo.frames_of 2))))
    as Hperm by (change ([1; 0] ≡ₚ [0; 1]); apply perm_swap).
  split; [exact Hne|]. split; [exact Hperm|].
  destruct (runpod_is_single_chunk (Demo.video 2) [1; 0] (Demo.frames_of 2)
              2 2 Hne Hperm) as (_ & _ & Htracked & _).
  - intros f _. reflexivity.
  - exact Htracked.
Defined.

Lemma failures_reported_or_raised_witness :
  fst (run (Modal.segment Cases.audio_only [0; 1] (Demo.request "AAAA")))
    = Raised StopIteration /\
  fst (run (Runpod.segment_video Cases.audio_only (Demo.request "AAAA")))
    = Raised (RuntimeError "coroutine raised StopIteration").
Proof.
  destruct (failures_reported_or_raised Cases.audio_only [0; 1]
              (Demo.request "AAAA")) as (_ & H & _).
  destruct (H eq_refl) as (_ & Hstripped).
  destruct (Hstripped "AAAA"%string eq_refl) as (_ & Hdecoded).
  destruct (Hdecoded [Byte.x00; Byte.x00; Byte.x00] eq_refl)
    as (Hprobe & _ & _ & Hframes).
  split.
  - apply Hprobe. reflexivity.
  - destruct (Hframes [Byte.x00] [[Byte.x01]] eq_refl) as (_ & Hlate & _).
    eapply (Hlate _ StopIteration); vm_compute; reflexivity.
Defined.

Lemma dispatch_preserves_frame_order_witness :
  exists masks,
    fst (run (Modal.dispatch (Demo.video 2) [1; 0]
                (split_chunks (Demo.frames_of 2)) 2 2)) = Returned masks /\
    length masks = length (Demo.frames_of 2).
Proof.
  destruct (dispatch_preserves_frame_order (Demo.video 2) [1; 0]
              (Demo.frames_of 2) 2 2) as (masks & Hrun & Hlen & _).
  - vm_compute. discriminate.
  - change ([1; 0] ≡ₚ [0; 1]). apply perm_swap.
  - intros chunk Hin.
    change (chunk ∈ [[[Byte.x00]]; [[Byte.x01]]]) in Hin.
    apply elem_of_cons in Hin as [->|Hin];
      [|apply elem_of_cons in Hin as [->|Hin];
        [|apply elem_of_nil in Hin; destruct Hin]];
      eexists; vm_compute; reflexivity.
  - exists masks. split; [exact Hrun|exact Hlen].
Defined.

Lemma split_chunks_partition_witness :
  Demo.frames_of 9 <> [] /\
  concat (split_chunks (Demo.frames_of 9)) = Demo.frames_of 9.
Proof.
  assert (Demo.frames_of 9 <> []) as Hne by (vm_compute; discriminate).
  split; [exact Hne|].
  exact (proj1 (split_chunks_partition (Demo.frames_of 9) Hne)).
Defined.

Lemma single_chunk_runs_locally_witness :
  Demo.frames_of 1 <> [] /\
  snd (run (Modal.dispatch (Demo.video 1) [0]
              (split_chunks (Demo.frames_of 1)) 2 2)) = [ELocal [[Byte.x00]]].
Proof.
  assert (Demo.frames_of 1 <> []) as Hne by (vm_compute; discriminate).
  split; [exact Hne|].
  destruct (single_chunk_runs_locally (Demo.video 1) [0] (Demo.frames_of 1)
              2 2 Hne) as [(_ & chunk & Hchunk & Hlog & _)|(Hmany & _)].
  - change (split_chunks (Demo.frames_of 1)) with [[[Byte.x00]]] in Hchunk.
    injection Hchunk as <-. exact Hlog.
  - vm_compute in Hmany. lia.
Defined.


Lemma modal_encode_failure_raises_witness :
  fst (run (Modal.segment Demo.unencodable [1; 0] (Demo.request "AAAA")))
    = Raised (RuntimeError "ffmpeg failed: Invalid frame rate").
Proof.
  refine (proj1 (modal_encode_failure_raises Demo.unencodable [1; 0]
                   (Demo.request "AAAA") "AAAA"
                   [Byte.x00; Byte.x00; Byte.x00] (30 # 1)%Q
                   [Byte.x00] [[Byte.x01]] 2 2
                   [repeat Byte.xff 12; repeat Byte.xff 12]
                   1%Z "Invalid frame rate" []
                   eq_refl eq_refl eq_refl _ eq_refl eq_refl _ eq_refl _)).
  - vm_compute. reflexivity.
  - vm_compute. reflexivity.
  - discriminate.
Defined.

Lemma empty_payload_no_processing_witness :
  run (Modal.segment (Demo.video 2) [0; 1] ∅)
    = (Returned (error_response "No video_base64 provided"), []) /\
  run (Runpod.segment_video (Demo.video 2) ∅)
    = (Returned (error_response "No video_base64 provided"), []).
Proof.
  apply (empty_payload_no_processing (Demo.video 2) [0; 1] ∅).
  left. reflexivity.
Defined.

Lemma payload_prefix_stripped_witness :
  (exists rest,
      snd (run (Modal.segment (Demo.video 2) [0; 1]
                  (Demo.request "data:video/mp4;base64,AAAA")))
      = EB64Decode "AAAA" :: rest) /\
  (exists rest,
      snd (run (Runpod.segment_video (Demo.video 2)
                  (Demo.request "data:video/mp4;base64,AAAA")))
      = EB64Decode "AAAA" :: rest).
Proof.
  refine (proj1 (payload_prefix_stripped (Demo.video 2) [0; 1]
                   (Demo.request "data:video/mp4;base64,AAAA")
                   "data:video/mp4;base64,AAAA" _ _)
                "data:video/mp4;base64" "AAAA" _ _).
  - reflexivity.
  - discriminate.
  - reflexivity.
  - reflexivity.
Defined.

(** ** More on the partition *)

Section PartitionExtras.
Context {frame : Type}.
Implicit Types (frames : list frame).

Lemma chunk_loop_unit fuel i frames :
  length frames - i <= fuel ->
  chunk_loop fuel i 1 frames = (fun f => [f]) <$> drop i frames.
Proof.
  revert i. induction fuel as [|fuel IH]; intros i Hfuel; simpl.
  - rewrite drop_ge by lia. reflexivity.
  - destruct (Nat.ltb_spec i (length frames)) as [Hi|Hi].
    + destruct (lookup_lt_is_Some_2 frames i Hi) as [f Hf].
      rewrite (drop_S _ _ _ Hf). simpl.
      rewrite IH by lia. unfold Py.slice.
      replace (i + 1 - i) with 1 by lia.
      rewrite (drop_S _ _ _ Hf). simpl. rewrite take_0.
      replace (i + 1) with (S i) by lia. reflexivity.
    + rewrite drop_ge by lia. reflexivity.
Qed.

(** A video of at most eight frames is cut into one-frame chunks: every
    frame goes to a worker of its own. *)
Theorem short_video_one_frame_per_chunk frames :
  frames <> [] -> length frames <= MAX_PARALLEL_CHUNKS ->
  split_chunks frames = (fun f => [f]) <$> frames.
Proof.
  intros Hne Hle. unfold split_chunks.
  assert (0 < length frames) as Hpos by (destruct frames; simpl; [done|lia]).
  assert (frames_per_chunk_of (length frames) = 1) as ->.
  { unfold frames_per_chunk_of, num_chunks_of. rewrite Nat.min_r by done.
    apply ceil_div_small; lia. }
  rewrite chunk_loop_unit by lia. now rewrite drop_0.
Qed.

(** From fifty frames on, the partition always uses all eight slots. *)
Theorem long_video_eight_chunks frames :
  50 <= length frames ->
  length (split_chunks frames) = MAX_PARALLEL_CHUNKS.
Proof.
  intros Hlen.
  assert (frames <> []) as Hne by (intros ->; simpl in Hlen; lia).
  pose proof (split_chunks_le_num_chunks frames Hne) as [_ Hup].
  rewrite split_chunks_length in * by done.
  unfold num_chunks_of, MAX_PARALLEL_CHUNKS in *.
  rewrite Nat.min_l in Hup by lia.
  set (n := length frames) in *.
  assert (0 < frames_per_chunk_of n) as Hc by (apply frames_per_chunk_pos; lia).
  pose proof (ceil_div_bounds n 8 ltac:(lia)) as [Hlo _].
  fold (Nat.min 8 n) in Hlo.
  assert (frames_per_chunk_of n = Py.ceil_div n 8) as Hfc.
  { unfold frames_per_chunk_of, num_chunks_of, MAX_PARALLEL_CHUNKS.
    now rewrite Nat.min_l by lia. }
  rewrite <- Hfc in Hlo.
  pose proof (ceil_div_bounds n (frames_per_chunk_of n) Hc) as [_ Hhi].
  nia.
Qed.

(** When the frame count is a multiple of eight, the eight chunks all have
    an eighth of the frames. *)
Theorem multiple_of_eight_splits_evenly frames q :
  0 < q -> length frames = MAX_PARALLEL_CHUNKS * q ->
  length (split_chunks frames) = MAX_PARALLEL_CHUNKS /\
  Forall (fun chunk => length chunk = q) (split_chunks frames).
Proof.
  intros Hq Hlen. unfold MAX_PARALLEL_CHUNKS in *.
  assert (frames <> []) as Hne by (intros ->; simpl in Hlen; lia).
  assert (frames_per_chunk_of (length frames) = q) as Hc.
  { unfold frames_per_chunk_of, num_chunks_of, MAX_PARALLEL_CHUNKS, Py.ceil_div.
    rewrite Hlen, Nat.min_l by lia.
    rewrite (Nat.mul_comm 8 q), Nat.div_mul, Nat.Div0.mod_mul by lia.
    simpl. lia. }
  assert (length (split_chunks frames) = 8) as Hcount.
  { rewrite split_chunks_length by done. rewrite Hc, Hlen.
    unfold Py.ceil_div.
    rewrite Nat.div_mul, Nat.Div0.mod_mul by lia. simpl. lia. }
  split; [exact Hcount|].
  apply Forall_lookup. intros k chunk Hk.
  pose proof (lookup_lt_Some _ _ _ Hk) as Hlt. rewrite Hcount in Hlt.
  destruct (split_chunks_lookup frames k chunk Hne Hk) as [-> _].
  rewrite Hc, slice_length. nia.
Qed.

End PartitionExtras.

(** ** More on the request payload *)

Lemma error_response_inj a b : error_response a = error_response b -> a = b.
Proof.
  intros H. apply (f_equal (fun m => m !! "error"%string)) in H.
  unfold error_response in H. rewrite !lookup_singleton_eq in H. congruence.
Qed.

Lemma segment_returned_truthy w order data resp log :
  truthy (get_payload data) = true ->
  run (Modal.segment w order data) = (Returned resp, log) ->
  resp = error_response "No frames extracted from video" \/
  resp !! "error"%string = None.
Proof.
  unfold run, Modal.segment. intros Ht H. rewrite Ht in H. cbn [negb] in H.
  invert_run; [now left|now right].
Qed.

Lemma segment_video_returned_truthy w data resp log :
  truthy (get_payload data) = true ->
  run (Runpod.segment_video w data) = (Returned resp, log) ->
  resp = error_response "No frames extracted from video" \/
  (exists stderr,
     resp = error_response
              ("ffmpeg encode failed: " +:+ Py.str_suffix 500 stderr)) \/
  resp !! "error"%string = None.
Proof.
  intros Ht H. apply segment_video_body_returned in H. revert H.
  unfold run, Runpod.segment_video_body. intros H. rewrite Ht in H.
  cbn [negb] in H.
  invert_run; [now left|right; left; eauto|now right; right].
Qed.

Lemma is_comma_spec x : is_comma x = true <-> x = PStr ",".
Proof.
  destruct x; simpl; try (split; intros H; discriminate H).
  rewrite String.eqb_eq. split; [now intros ->|now intros [= ->]].
Qed.

Lemma comma_among_items items :
  existsb is_comma items = true <-> PStr "," ∈ items.
Proof.
  induction items as [|x items IH]; simpl.
  - split; [discriminate|]. intros H. apply elem_of_nil in H. destruct H.
  - rewrite orb_true_iff, IH, is_comma_spec, elem_of_cons.
    split; (intros [H|H]; [left; congruence|now right]).
Qed.

Lemma comma_among_keys (entries : list (string * pyval)) :
  existsb (fun kv => String.eqb (fst kv) ",") entries = true
  <-> ","%string ∈ entries.*1.
Proof.
  induction entries as [|kv entries IH]; simpl.
  - split; [discriminate|]. intros H. apply elem_of_nil in H. destruct H.
  - rewrite orb_true_iff, IH, String.eqb_eq, elem_of_cons.
    split; (intros [H|H]; [left; congruence|now right]).
Qed.

Ltac falsy_cases :=
  split; intros H;
  [ try discriminate H; eauto 12
  | repeat (destruct H as [H|H]);
    try (destruct H as (? & H & ?));
    first [discriminate H | reflexivity | congruence] ].

(** The "No video_base64 provided" response is returned exactly for a
    payload that Python counts as false: the key is missing, or its value
    is [None], [False], [0], [0.0], the empty string, the empty list or
    the empty object; nothing has been done by then. *)
Theorem no_payload_response_iff w order data :
  let missing := error_response "No video_base64 provided" in
  let given := data !! "video_base64"%string in
  (fst (run (Modal.segment w order data)) = Returned missing
     <-> truthy (get_payload data) = false) /\
  (fst (run (Runpod.segment_video w data)) = Returned missing
     <-> truthy (get_payload data) = false) /\
  (truthy (get_payload data) = false ->
     snd (run (Modal.segment w order data)) = [] /\
     snd (run (Runpod.segment_video w data)) = []) /\
  (truthy (get_payload data) = false <->
     given = None \/ given = Some PNone \/ given = Some (PBool false) \/
     given = Some (PInt 0) \/
     (exists q, given = Some (PFloat q) /\ Qnum q = 0%Z) \/
     given = Some (PStr "") \/ given = Some (PList []) \/
     given = Some (PDict [])).
Proof.
  intros missing given.
  pose proof (falsy_payload_reported w order data) as Hfalse.
  split; [|split; [|split]].
  - split.
    + intros Hrun. destruct (truthy (get_payload data)) eqn:Ht; [|reflexivity].
      destruct (run (Modal.segment w order data)) as [o log] eqn:Hr.
      simpl in Hrun. subst o.
      destruct (segment_returned_truthy w order data _ _ Ht Hr) as [H|H].
      * apply error_response_inj in H. discriminate H.
      * discriminate H.
    + intros Hf. destruct (Hfalse Hf) as [-> _]. reflexivity.
  - split.
    + intros Hrun. destruct (truthy (get_payload data)) eqn:Ht; [|reflexivity].
      destruct (run (Runpod.segment_video w data)) as [o log] eqn:Hr.
      simpl in Hrun. subst o.
      destruct (segment_video_returned_truthy w data _ _ Ht Hr)
        as [H|[[stderr H]|H]].
      * apply error_response_inj in H. discriminate H.
      * apply error_response_inj in H. discriminate H.
      * discriminate H.
    + intros Hf. destruct (Hfalse Hf) as [_ ->]. reflexivity.
  - intros Hf. destruct (Hfalse Hf) as [-> ->]. split; reflexivity.
  - clear Hfalse. unfold get_payload. subst given.
    destruct (data !! "video_base64"%string)
      as [[|b|z|q|s|items|entries]|]; simpl.
    + falsy_cases.
    + destruct b; falsy_cases.
    + destruct (Z.eqb_spec z 0) as [->|Hz]; simpl; falsy_cases.
    + destruct (Z.eqb_spec (Qnum q) 0) as [Hq|Hq]; simpl; falsy_cases.
    + destruct s; simpl; falsy_cases.
    + destruct items; falsy_cases.
    + destruct entries; falsy_cases.
    + falsy_cases.
Qed.

(** A payload that counts as true but is not a string makes both handlers
    raise with nothing decoded and nothing written: a boolean or a number
    fails the ["," in] test with [TypeError]; a list with [","] among its
    items, or an object with [","] among its keys, passes the test and
    fails at [split] with [AttributeError]; any other non-empty list or
    object goes to [b64decode], which refuses it with [TypeError]. *)
Theorem non_string_payload_raises w order data :
  let payload := get_payload data in
  let raises e :=
    run (Modal.segment w order data) = (Raised e, []) /\
    run (Runpod.segment_video w data) = (Raised e, []) in
  truthy payload = true ->
  ((exists b, payload = PBool b) \/ (exists z, payload = PInt z) \/
   (exists q, payload = PFloat q) -> raises TypeError) /\
  (forall items, payload = PList items ->
     (PStr "," ∈ items -> raises AttributeError) /\
     (PStr "," ∉ items -> raises TypeError)) /\
  (forall entries, payload = PDict entries ->
     (","%string ∈ entries.*1 -> raises AttributeError) /\
     (","%string ∉ entries.*1 -> raises TypeError)).
Proof.
  intros payload raises Ht. subst payload raises. cbv beta.
  split; [|split].
  - intros [[b H]|[[z H]|[q H]]];
      apply (preamble_failure_escapes w order data TypeError Ht);
      now rewrite H.
  - intros items H. split; intros Hin.
    + apply (preamble_failure_escapes w order data AttributeError Ht).
      rewrite H. simpl.
      now rewrite (proj2 (comma_among_items items) Hin).
    + apply (preamble_failure_escapes w order data TypeError Ht).
      rewrite H. simpl.
      destruct (existsb is_comma items) eqn:He; [|reflexivity].
      now apply comma_among_items in He.
  - intros entries H. split; intros Hin.
    + apply (preamble_failure_escapes w order data AttributeError Ht).
      rewrite H. simpl.
      now rewrite (proj2 (comma_among_keys entries) Hin).
    + apply (preamble_failure_escapes w order data TypeError Ht).
      rewrite H. simpl.
      destruct (existsb _ entries) eqn:He; [|reflexivity].
      now apply comma_among_keys in He.
Qed.

(** ** More on the probe *)

Lemma split_no_sep c s : Str.contains c s = false -> Str.split c s = [s].
Proof.
  induction s as [|d s IH]; simpl; [reflexivity|].
  destruct (Ascii.eqb d c); [discriminate|]. intros H. now rewrite IH.
Qed.

Lemma split_app_sep c pre post :
  Str.contains c pre = false ->
  Str.split c (pre +:+ String c post) = pre :: Str.split c post.
Proof.
  induction pre as [|d pre IH]; simpl.
  - now rewrite Ascii.eqb_refl.
  - destruct (Ascii.eqb d c); [discriminate|]. intros H. now rewrite IH.
Qed.

Lemma split_nonempty c s : exists hd tl, Str.split c s = hd :: tl.
Proof.
  induction s as [|d s (hd & tl & IH)]; simpl; [eauto|].
  destruct (Ascii.eqb d c); [eauto|]. rewrite IH. eauto.
Qed.

(** The stream whose frame rate is used is the first one of codec type
    [video]; streams of other types before it are skipped, and whatever
    comes after it is not looked at.  Without a video stream the search
    ends in [StopIteration]; a stream without a [codec_type] met on the
    way ends it in [KeyError]. *)
Theorem first_video_stream_spec (pre post : list (gmap string string)) s :
  Forall (fun t => exists c, t !! "codec_type"%string = Some c /\
                             c <> "video"%string) pre ->
  (s !! "codec_type"%string = Some "video"%string ->
     first_video_stream (pre ++ s :: post) = Returned s) /\
  (s !! "codec_type"%string = None ->
     first_video_stream (pre ++ s :: post) = Raised KeyError) /\
  first_video_stream pre = Raised StopIteration.
Proof.
  intros Hpre. induction Hpre as [|t pre (c & Hc & Hne) _ IH]; simpl.
  - repeat split.
    + intros ->. reflexivity.
    + intros ->. reflexivity.
  - rewrite Hc. destruct (String.eqb_spec c "video") as [->|_]; [done|].
    exact IH.
Qed.

(** With a video stream whose [r_frame_rate] reads [num/den], the probe
    logs one effect and ends as the arithmetic does: with what [int]
    raises on [num], else with what it raises on [den], else with
    [ZeroDivisionError] when [den] reads as zero, else with the quotient.
    A rate without a slash ends with what [int] raises on it, and with
    [IndexError] when [int] accepts it; a stream without [r_frame_rate]
    ends in [KeyError]. *)
Theorem probe_fps_spec w video_bytes streams s :
  ffprobe w video_bytes = Returned streams ->
  first_video_stream streams = Returned s ->
  (forall num den,
     s !! "r_frame_rate"%string = Some (num +:+ String "/"%char den) ->
     Str.contains "/"%char num = false ->
     Str.contains "/"%char den = false ->
     run (probe_fps w video_bytes)
     = (match py_int w num, py_int w den with
        | Raised e, _ => Raised e
        | Returned _, Raised e => Raised e
        | Returned a, Returned b =>
            if (b =? 0)%Z then Raised ZeroDivisionError
            else Returned (inject_Z a / inject_Z b)%Q
        end, [EProbe])) /\
  (forall rate,
     s !! "r_frame_rate"%string = Some rate ->
     Str.contains "/"%char rate = false ->
     run (probe_fps w video_bytes)
     = (match py_int w rate with
        | Raised e => Raised e
        | Returned _ => Raised IndexError
        end, [EProbe])) /\
  (s !! "r_frame_rate"%string = None ->
     run (probe_fps w video_bytes) = (Raised KeyError, [EProbe])).
Proof.
  intros Hprobe Hs. unfold run, probe_fps.
  rewrite bind_perform, Hprobe, bind_lift_returned, Hs, bind_lift_returned.
  split; [|split].
  - intros num den Hrate Hnum Hden.
    rewrite Hrate, bind_lift_returned. cbn zeta.
    rewrite split_app_sep, split_no_sep by done.
    change (Str.index [num; den] 0) with (Returned num).
    change (Str.index [num; den] 1) with (Returned den).
    change (Returned num ≫= py_int w) with (py_int w num).
    change (Returned den ≫= py_int w) with (py_int w den).
    destruct (py_int w num) as [a|e]; [|reflexivity].
    rewrite bind_lift_returned.
    destruct (py_int w den) as [b|e]; [|reflexivity].
    rewrite bind_lift_returned.
    now destruct (b =? 0)%Z.
  - intros rate Hrate Hno.
    rewrite Hrate, bind_lift_returned. cbn zeta.
    rewrite split_no_sep by done.
    change (Str.index [rate] 0) with (Returned rate).
    change (Returned rate ≫= py_int w) with (py_int w rate).
    destruct (py_int w rate) as [a|e]; reflexivity.
  - intros Hrate. rewrite Hrate. reflexivity.
Qed.

(** ** What a run leaves in its log *)

Lemma probe_fps_log w video_bytes log :
  snd (probe_fps w video_bytes log) = log ++ [EProbe].
Proof.
  unfold probe_fps. rewrite bind_perform.
  destruct (ffprobe w video_bytes) as [streams|e]; [|reflexivity].
  rewrite bind_lift_returned.
  destruct (first_video_stream streams) as [s|e]; [|reflexivity].
  rewrite bind_lift_returned.
  destruct (s !! "r_frame_rate"%string) as [rate|]; [|reflexivity].
  rewrite bind_lift_returned. cbn zeta.
  destruct (Str.index (Str.split "/" rate) 0 ≫= py_int w) as [a|e];
    [|reflexivity].
  rewrite bind_lift_returned.
  destruct (Str.index (Str.split "/" rate) 1 ≫= py_int w) as [b|e];
    [|reflexivity].
  rewrite bind_lift_returned. now destruct (b =? 0)%Z.
Qed.

Lemma write_masks_log masks i log :
  for_enumerate (fun i png_bytes => perform (EWriteMask i png_bytes)) i masks log
  = (Returned tt, log ++ imap (fun j png => EWriteMask (i + j) png) masks).
Proof.
  revert i log. induction masks as [|png masks IH]; intros i log.
  - simpl. unfold mret, M_ret. now rewrite app_nil_r.
  - cbn [for_enumerate]. rewrite bind_perform, IH. simpl.
    rewrite <- app_assoc. simpl. do 3 f_equal.
    + f_equal. lia.
    + apply imap_ext. intros j x _. simpl. f_equal. lia.
Qed.

Lemma written_imap i (masks : list bytes) :
  masks_written (imap (fun j png => EWriteMask (i + j) png) masks) = masks /\
  mask_indices (imap (fun j png => EWriteMask (i + j) png) masks)
    = seq i (length masks) /\
  encoded (imap (fun j png => EWriteMask (i + j) png) masks) = [].
Proof.
  revert i. induction masks as [|png masks IH]; intros i; [done|].
  simpl.
  assert (imap ((fun j png => EWriteMask (i + j) png) ∘ S) masks
          = imap (fun j png => EWriteMask (S i + j) png) masks) as ->.
  { apply imap_ext. intros j x _. simpl. f_equal. lia. }
  destruct (IH (S i)) as (H1 & H2 & H3).
  unfold masks_written, mask_indices, encoded in *. simpl in *.
  rewrite H1, H2, H3, Nat.add_0_r. done.
Qed.

(** If the pooled map returns at all, it returns the workers' results in
    input order, whatever the completion order was. *)
Lemma pool_map_returned {A B} (f : A -> outcome B) order inputs rs :
  Modal.pool_map order f inputs = Returned rs ->
  for_each f inputs = Returned rs.
Proof.
  unfold Modal.pool_map. set (completed := omap _ order). intros H.
  rewrite <- H.
  rewrite <- (for_each_seq_lookup f
                (fun o => match o with
                          | Some x => f x
                          | None => Raised WorkerLost
                          end)) by reflexivity.
  destruct (for_each_returned _ _ _ H) as [_ Hall].
  symmetry. apply for_each_ext. intros i Hi.
  apply elem_of_seq in Hi as [_ Hi]. simpl in Hi.
  destruct (Hall i i) as (y & Hy & _); [apply lookup_seq; lia|].
  destruct (lookup_lt_is_Some_2 inputs i Hi) as [x Hx]. rewrite Hx.
  destruct (list_find _ completed) as [[j [i' r]]|] eqn:Hfind; [|discriminate].
  apply list_find_Some in Hfind as (Hj & Hfst & _). simpl in Hfst. subst i'.
  apply list_elem_of_lookup_2 in Hj.
  apply list_elem_of_omap in Hj as (i'' & _ & Hi'').
  destruct (inputs !! i'') as [x'|] eqn:Hx'; [|discriminate].
  simpl in Hi''. injection Hi'' as -> <-. congruence.
Qed.

Lemma dispatch_returned w order chunks width height log masks log' :
  Modal.dispatch w order chunks width height log = (Returned masks, log') ->
  length masks = length (concat chunks) /\
  exists e, log' = log ++ [e] /\
            ((exists chunk, e = ELocal chunk) \/ (exists cs, e = EMap cs)).
Proof.
  unfold Modal.dispatch. destruct (Nat.eqb_spec (length chunks) 1) as [H1|H1].
  - destruct chunks as [|chunk [|? ?]]; try discriminate.
    change (Str.index [chunk] 0) with (Returned chunk).
    rewrite bind_lift_returned, bind_perform. unfold lift.
    intros [= Hw <-]. split.
    + simpl. rewrite app_nil_r. eapply segment_chunk_length, Hw.
    + exists (ELocal chunk). eauto.
  - rewrite bind_perform, bind_apply. unfold lift.
    destruct (Modal.pool_map _ _ _) as [rs|e] eqn:Hpool; [|discriminate].
    unfold mret, M_ret. intros [= <- <-]. split.
    + apply pool_map_returned in Hpool.
      destruct (for_each_shape _ _ _ Hpool) as [Hlen _]; [|exact Hlen].
      intros chunk r. apply segment_chunk_length.
    + exists (EMap chunks). eauto.
Qed.

Lemma split_chunks_concat {frame} (frames : list frame) :
  frames <> [] -> concat (split_chunks frames) = frames.
Proof.
  intros Hne. unfold split_chunks. rewrite chunk_loop_concat.
  - apply drop_0.
  - apply frames_per_chunk_pos. destruct frames; simpl; [done|lia].
  - lia.
Qed.

(** Whenever the Modal endpoint returns a success response, whatever the
    order in which pooled workers completed, it has written exactly one
    mask per extracted frame, under the indices [0 .. num_frames - 1] in
    ascending order, and has started the encoder once, on those masks in
    that order. *)
Theorem modal_success_masks w order data resp log :
  run (Modal.segment w order data) = (Returned resp, log) ->
  resp !! "error"%string = None ->
  exists n,
    resp !! "num_frames"%string = Some (PInt (Z.of_nat n)) /\
    0 < n /\
    length (masks_written log) = n /\
    mask_indices log = seq 0 n /\
    encoded log = [masks_written log].
Proof.
  unfold run, Modal.segment. intros H Hnoerr.
  destruct (negb (truthy _)).
  { invert_run. discriminate Hnoerr. }
  invert_run; [discriminate Hnoerr|].
  match goal with
  | H : probe_fps _ ?vb ?l = (_, ?l') |- _ =>
      pose proof (probe_fps_log w vb l) as Hp; rewrite H in Hp;
      simpl in Hp; subst l'
  end.
  match goal with
  | H : Modal.dispatch _ _ _ _ _ _ = (Returned _, _) |- _ =>
      apply dispatch_returned in H as (Hlen & e & -> & He)
  end.
  match goal with
  | H : for_enumerate _ _ ?masks ?l = _ |- _ =>
      rewrite write_masks_log in H; injection H as _ <-;
      destruct (written_imap 0 masks) as (Hw1 & Hw2 & Hw3)
  end.
  rewrite split_chunks_concat in Hlen by done.
  eexists. split; [reflexivity|]. split; [simpl; lia|].
  unfold masks_written, mask_indices, encoded in *.
  simpl in Hw1, Hw2, Hw3. unfold omap in Hw1, Hw2, Hw3.
  destruct He as [[chunk ->]|[cs ->]]; rewrite !omap_app; simpl;
    rewrite Hw1, Hw2, Hw3, !app_nil_r; repeat split; try done;
    now rewrite Hlen.
Qed.

Lemma for_range_length {A} (body : nat -> M A) idxs log xs log' :
  for_range body idxs log = (Returned xs, log') -> length xs = length idxs.
Proof.
  revert log xs log'. induction idxs as [|i idxs IH]; intros log xs log' H.
  - cbn [for_range] in H. unfold mret, M_ret in H. now injection H as <- _.
  - cbn [for_range] in H.
    apply bind_returned in H as (x & l1 & _ & H).
    apply bind_returned in H as (rest & l2 & Hrest & H).
    unfold mret, M_ret in H. injection H as <- _.
    simpl. f_equal. eapply IH, Hrest.
Qed.

Lemma render_loop_log w frames segs idxs log pngs log' :
  for_range (Runpod.render_one w frames segs) idxs log = (Returned pngs, log') ->
  exists ev,
    log' = log ++ ev /\ masks_written ev = pngs /\
    mask_indices ev = idxs /\ encoded ev = [].
Proof.
  revert log pngs log'. induction idxs as [|i idxs IH]; intros log pngs log' H.
  - cbn [for_range] in H. unfold mret, M_ret in H. injection H as <- <-.
    exists []. now rewrite app_nil_r.
  - cbn [for_range] in H.
    apply bind_returned in H as (png & l1 & Hone & H).
    apply bind_returned in H as (rest & l2 & Hrest & H).
    unfold mret, M_ret in H. injection H as <- <-.
    unfold Runpod.render_one in Hone. invert_run.
    apply IH in Hrest as (ev & -> & Hw & Hi & He).
    eexists ([_; _] ++ ev). split.
    + rewrite <- !app_assoc. reflexivity.
    + unfold masks_written, mask_indices, encoded in *.
      rewrite !omap_app, Hw, Hi, He. done.
Qed.

(** Whenever the RunPod endpoint returns a success response it has
    written exactly one mask per extracted frame, under the indices
    [0 .. num_frames - 1] in ascending order, and has started the encoder
    once, on those masks in that order. *)
Theorem runpod_success_masks w data resp log :
  run (Runpod.segment_video w data) = (Returned resp, log) ->
  resp !! "error"%string = None ->
  exists n,
    resp !! "num_frames"%string = Some (PInt (Z.of_nat n)) /\
    0 < n /\
    length (masks_written log) = n /\
    mask_indices log = seq 0 n /\
    encoded log = [masks_written log].
Proof.
  intros H Hnoerr. apply segment_video_body_returned in H. revert H.
  unfold run, Runpod.segment_video_body. intros H.
  destruct (negb (truthy _)).
  { invert_run. discriminate Hnoerr. }
  invert_run; try discriminate Hnoerr.
  match goal with
  | H : probe_fps _ ?vb ?l = (_, ?l') |- _ =>
      pose proof (probe_fps_log w vb l) as Hp; rewrite H in Hp;
      simpl in Hp; subst l'
  end.
  match goal with
  | H : Runpod.render_masks _ _ _ = (Returned _, _) |- _ =>
      unfold Runpod.render_masks in H; invert_run
  end.
  match goal with
  | H : for_range _ _ _ = (Returned ?pngs, _) |- _ =>
      pose proof (for_range_length _ _ _ _ _ H) as Hlen;
      apply render_loop_log in H as (ev & -> & Hw & Hi & He)
  end.
  rewrite length_seq in Hlen.
  eexists. split; [reflexivity|]. split; [simpl; lia|].
  unfold masks_written, mask_indices, encoded in *.
  rewrite !omap_app, Hw, Hi, He. simpl. rewrite !app_nil_r.
  repeat split; try done.
Qed.

(** ** What no run ever does *)

Section Emits.
Context (P : effect -> Prop) {A B : Type}.

Lemma emits_ret (a : A) : emits P (mret a).
Proof. intros log H. exact H. Qed.

Lemma emits_lift (o : outcome A) : emits P (lift o).
Proof. intros log H. exact H. Qed.

Lemma emits_raise (e : exn) : emits P (@raise A e).
Proof. intros log H. exact H. Qed.

Lemma emits_perform (e : effect) : P e -> emits P (perform e).
Proof.
  intros He log H. unfold perform. simpl.
  apply Forall_app. split; [exact H|]. now constructor.
Qed.

Lemma emits_bind (m : M A) (k : A -> M B) :
  emits P m -> (forall a, emits P (k a)) -> emits P (m ≫= k).
Proof.
  intros Hm Hk log H. rewrite bind_apply.
  specialize (Hm log H). destruct (m log) as [[a|e] l1]; simpl in *.
  - now apply Hk.
  - exact Hm.
Qed.

End Emits.

Lemma emits_for_enumerate P {A} (body : nat -> A -> M unit) i l :
  (forall i x, emits P (body i x)) -> emits P (for_enumerate body i l).
Proof.
  intros Hb. revert i. induction l as [|x l IH]; intros i; cbn [for_enumerate].
  - apply emits_ret.
  - apply emits_bind; auto.
Qed.

Lemma emits_for_range P {A} (body : nat -> M A) idxs :
  (forall i, emits P (body i)) -> emits P (for_range body idxs).
Proof.
  intros Hb. induction idxs as [|i idxs IH]; cbn [for_range].
  - apply emits_ret.
  - apply emits_bind; [auto|]. intros x.
    apply emits_bind; [auto|]. intros xs. apply emits_ret.
Qed.

Ltac emits_tac :=
  repeat first
    [ apply emits_ret | apply emits_lift | apply emits_raise
    | apply emits_perform; exact I
    | apply emits_bind; [|intros]
    | apply emits_for_enumerate; intros
    | apply emits_for_range; intros
    | match goal with
      | |- emits _ (match ?x with _ => _ end) => destruct x
      | |- emits _ (if ?b then _ else _) => destruct b
      | |- emits _ (let '(_, _) := ?x in _) => destruct x
      end ].

Lemma split_chunks_none_empty {frame} (frames : list frame) :
  frames <> [] -> Forall (fun chunk => chunk <> []) (split_chunks frames).
Proof.
  intros Hne. apply Forall_lookup. intros k chunk Hk ->.
  destruct (split_chunks_extent frames Hne k [] Hk) as (_ & Hlen & _).
  simpl in Hlen. lia.
Qed.

Lemma emits_dispatch_within_limit w order (frames : list bytes) width height :
  frames <> [] ->
  emits within_pool_limit
    (Modal.dispatch w order (split_chunks frames) width height).
Proof.
  intros Hne. unfold Modal.dispatch.
  destruct (Nat.eqb_spec (length (split_chunks frames)) 1) as [H1|H1].
  - emits_tac.
  - apply emits_bind; [|intros; emits_tac].
    apply emits_perform. simpl.
    pose proof (split_chunks_le_num_chunks frames Hne) as [Hlo Hhi].
    unfold num_chunks_of in Hhi. split; [lia|].
    now apply split_chunks_none_empty.
Qed.

(** No run of the Modal endpoint, whether it returns or raises, ever hands
    the platform's map more than [MAX_PARALLEL_CHUNKS] chunks, or fewer
    than two, or an empty chunk. *)
Theorem modal_stays_within_pool_limit w order data :
  Forall within_pool_limit (snd (run (Modal.segment w order data))).
Proof.
  enough (emits within_pool_limit (Modal.segment w order data)) as H
    by (apply H; constructor).
  unfold Modal.segment, probe_fps. emits_tac.
  now apply emits_dispatch_within_limit.
Qed.

(** ** All or nothing *)

Lemma dispatch_returned_workers w order chunks width height log masks log' :
  Modal.dispatch w order chunks width height log = (Returned masks, log') ->
  exists rs,
    for_each (fun chunk => Modal.segment_chunk w chunk width height) chunks
      = Returned rs /\
    masks = concat rs.
Proof.
  unfold Modal.dispatch. destruct (Nat.eqb_spec (length chunks) 1) as [H1|H1].
  - destruct chunks as [|chunk [|? ?]]; try discriminate.
    change (Str.index [chunk] 0) with (Returned chunk).
    rewrite bind_lift_returned, bind_perform. unfold lift.
    intros [= Hw _]. exists [masks]. cbn [for_each]. rewrite Hw.
    split; [reflexivity|]. simpl. now rewrite app_nil_r.
  - rewrite bind_perform, bind_apply. unfold lift.
    destruct (Modal.pool_map _ _ _) as [rs|e] eqn:Hpool; [|discriminate].
    unfold mret, M_ret. intros [= <- _]. exists rs.
    split; [|reflexivity]. eapply pool_map_returned, Hpool.
Qed.

(** One chunk whose worker raises fails the whole dispatch, on the local
    path and on the pooled one, whatever the completion order: the
    dispatcher never returns masks for the other chunks alone, and the
    handler then returns no response. *)
Theorem failed_chunk_fails_request w order data x video_bytes original_fps
    first rest width height chunk e :
  let frames := first :: rest in
  chunk ∈ split_chunks frames ->
  Modal.segment_chunk w chunk width height = Raised e ->
  (exists e',
     fst (run (Modal.dispatch w order (split_chunks frames) width height))
     = Raised e') /\
  (truthy (get_payload data) = true ->
   strip_prefix (get_payload data) = Returned x ->
   b64decode w x = Returned video_bytes ->
   fst (run (probe_fps w video_bytes)) = Returned original_fps ->
   ffmpeg_extract w video_bytes = Some frames ->
   image_size w first = Returned (width, height) ->
   exists e', fst (run (Modal.segment w order data)) = Raised e').
Proof.
  intros frames Hin Hfail.
  assert (exists e',
            fst (run (Modal.dispatch w order (split_chunks frames) width height))
            = Raised e') as [e' He'].
  { destruct (run (Modal.dispatch w order (split_chunks frames) width height))
      as [[masks|e'] log] eqn:Hrun; [|eauto].
    apply dispatch_returned_workers in Hrun as (rs & Hrs & _).
    apply list_elem_of_lookup in Hin as [k Hk].
    destruct (for_each_returned _ _ _ Hrs) as [_ Hall].
    destruct (Hall k chunk Hk) as (ms & Hms & _). congruence. }
  split; [eauto|].
  intros Ht Hx Hvb Hp Hex Hsize. exists e'.
  eapply modal_inference_failure_escapes; eauto.
Qed.

(** ** The Modal response *)

(** A response of the Modal endpoint without an [error] key carries the
    encoded video, a positive frame count, a chunk count between one and
    eight that does not exceed the frame count, and the same frame rate
    under [fps] and [original_fps]. *)
Theorem modal_response_shape w order data resp log :
  run (Modal.segment w order data) = (Returned resp, log) ->
  resp !! "error"%string = None ->
  exists video n chunks fps elapsed,
    resp !! "mask_video_base64"%string = Some (PStr video) /\
    resp !! "num_frames"%string = Some (PInt n) /\
    resp !! "chunks"%string = Some (PInt chunks) /\
    resp !! "fps"%string = Some (PFloat fps) /\
    resp !! "original_fps"%string = Some (PFloat fps) /\
    resp !! "processing_time"%string = Some (PFloat elapsed) /\
    (1 <= chunks <= 8)%Z /\ (chunks <= n)%Z.
Proof.
  intros Hrun Hnoerr.
  destruct (segment_returned w order data resp log Hrun)
    as [->|[->|Hok]]; [discriminate Hnoerr..|].
  destruct Hok as (x & vb & frames & fps & masks & stderr & out
                   & _ & _ & _ & Hne & _ & ->).
  pose proof (split_chunks_le_num_chunks frames Hne) as [Hlo Hhi].
  unfold num_chunks_of, MAX_PARALLEL_CHUNKS in Hhi.
  do 5 eexists. repeat split; try reflexivity; lia.
Qed.

(** ** What the rendered pixels are *)

Lemma lookup_map {X Y} (f : X -> Y) (l : list X) i :
  map f l !! i = f <$> l !! i.
Proof.
  revert i. induction l as [|x l IH]; intros [|i]; simpl; auto.
Qed.

Lemma gt0_shape h w (p : plane) :
  plane_shape h w p -> plane_shape h w (Np.gt0 p).
Proof.
  intros [Hh Hw]. unfold Np.gt0. split.
  - now rewrite List.length_map.
  - apply Forall_forall. intros row Hin.
    apply list_elem_of_In, in_map_iff in Hin as (row' & <- & Hin').
    rewrite List.length_map. rewrite Forall_forall in Hw.
    apply Hw. now apply list_elem_of_In.
Qed.

Lemma bit_at_gt0 (p : plane) r c :
  bit_at (Np.gt0 p) r c
  = match logit_at p r c with
    | Some x => if Qlt_le_dec 0 x then true else false
    | None => false
    end.
Proof.
  unfold bit_at, logit_at, Np.gt0. rewrite lookup_map.
  destruct (p !! r) as [row|]; simpl; [|reflexivity].
  rewrite lookup_map. destruct (row !! c) as [x|]; simpl; [|reflexivity].
  destruct (Qlt_le_dec 0 x) as [Hlt|Hle].
  - apply Z.ltb_lt. unfold Qlt in Hlt. simpl in Hlt. lia.
  - apply Z.ltb_ge. unfold Qle in Hle. simpl in Hle. lia.
Qed.

Lemma squeeze_2d h w (m : bitplane) :
  plane_shape h w m -> 2 <= h -> 2 <= w -> Np.squeeze m = Sq2 m.
Proof.
  intros [Hh Hw] H2h H2w.
  destruct m as [|r1 [|r2 rest]]; simpl in Hh; try lia.
  apply Forall_inv in Hw as Hr1.
  set (m := r1 :: r2 :: rest) in *.
  change (Np.squeeze m)
    with (if forallb (fun row : list bool => length row =? 1) m
          then Sq1 (map (fun row => default false (head row)) m)
          else Sq2 m).
  assert (forallb (fun row : list bool => length row =? 1) m = false) as ->;
    [|reflexivity].
  unfold m. simpl. destruct (Nat.eqb_spec (length r1) 1); [lia|reflexivity].
Qed.

Lemma paint_pixels_spec h w (m : bitplane) (img : image) :
  plane_shape h w m -> plane_shape h w img ->
  plane_shape h w (Np.paint_pixels m img) /\
  forall r c p, pixel_at img r c = Some p ->
    pixel_at (Np.paint_pixels m img) r c
    = Some (if bit_at m r c then Np.white else p).
Proof.
  intros [Hmh Hmw] [Hih Hiw]. unfold Np.paint_pixels. split; [split|].
  - rewrite length_zip_with. lia.
  - apply Forall_lookup. intros r row Hrow.
    apply lookup_zip_with_Some in Hrow as (mrow & irow & -> & Hm & Hi).
    rewrite length_zip_with.
    rewrite Forall_lookup in Hmw. rewrite Forall_lookup in Hiw.
    rewrite (Hmw _ _ Hm), (Hiw _ _ Hi). lia.
  - intros r c p. unfold pixel_at, bit_at.
    rewrite lookup_zip_with.
    destruct (img !! r) as [irow|] eqn:Hi; simpl; [|discriminate].
    intros Hp.
    destruct (m !! r) as [mrow|] eqn:Hm; simpl.
    + rewrite lookup_zip_with, Hp.
      rewrite Forall_lookup in Hmw. rewrite Forall_lookup in Hiw.
      pose proof (lookup_lt_Some _ _ _ Hp) as Hc.
      rewrite (Hiw _ _ Hi), <- (Hmw _ _ Hm) in Hc.
      destruct (lookup_lt_is_Some_2 mrow c Hc) as [b ->]. reflexivity.
    + apply lookup_ge_None in Hm. apply lookup_lt_Some in Hi. lia.
Qed.

Lemma paint_all_spec h w (masks : list bitplane) (img : image) :
  2 <= h -> 2 <= w ->
  Forall (plane_shape h w) masks -> plane_shape h w img ->
  exists img',
    paint_all h w masks img = Returned img' /\
    plane_shape h w img' /\
    forall r c p, pixel_at img r c = Some p ->
      pixel_at img' r c
      = Some (if existsb (fun m => bit_at m r c) masks then Np.white else p).
Proof.
  intros H2h H2w Hmasks. revert img.
  induction Hmasks as [|m masks Hm _ IH]; intros img Himg.
  - exists img. simpl. auto.
  - cbn [paint_all]. rewrite (squeeze_2d h w m Hm H2h H2w).
    unfold Np.assign_white.
    destruct Hm as [Hmh Hmw].
    assert (forallb (fun row : list bool => length row =? w) m = true) as Hrows.
    { apply forallb_forall. intros row Hin. apply Nat.eqb_eq.
      rewrite Forall_forall in Hmw. apply Hmw. now apply list_elem_of_In. }
    rewrite Hmh, Nat.eqb_refl, Hrows. cbn [andb].
    destruct (paint_pixels_spec h w m img (conj Hmh Hmw) Himg) as [Hshape Hpix].
    destruct (IH _ Hshape) as (img' & Himg' & Hshape' & Hpix').
    exists img'. split; [exact Himg'|]. split; [exact Hshape'|].
    intros r c p Hp. rewrite (Hpix' r c _ (Hpix r c p Hp)). simpl.
    destruct (bit_at m r c); simpl; [|reflexivity].
    now destruct (existsb _ masks).
Qed.

Lemma zeros_pixel h w r c :
  r < h -> c < w -> pixel_at (Np.zeros h w) r c = Some black.
Proof.
  intros Hr Hc. unfold pixel_at, Np.zeros.
  rewrite lookup_replicate_2 by done. simpl.
  now rewrite lookup_replicate_2 by done.
Qed.

Lemma zeros_plane_shape h w : plane_shape h w (Np.zeros h w).
Proof.
  unfold Np.zeros. split; [apply length_replicate|].
  apply Forall_replicate, length_replicate.
Qed.

(** For frames at least two pixels each way and masks of the frame's
    shape, a frame the tracker yielded masks for is rendered white exactly
    where some object's mask is set and black everywhere else. *)
Theorem render_frame_pixels h w video_segments frame_idx d r c :
  2 <= h -> 2 <= w ->
  video_segments !! frame_idx = Some d ->
  (forall obj_id mask, d !! obj_id = Some mask -> plane_shape h w mask) ->
  r < h -> c < w ->
  exists mask_img,
    render_frame h w video_segments frame_idx = Returned mask_img /\
    plane_shape h w mask_img /\
    ((exists obj_id mask, d !! obj_id = Some mask /\ bit_at mask r c = true) ->
       pixel_at mask_img r c = Some Np.white) /\
    ((forall obj_id mask, d !! obj_id = Some mask -> bit_at mask r c = false) ->
       pixel_at mask_img r c = Some black).
Proof.
  intros H2h H2w Hd Hshape Hr Hc. unfold render_frame. rewrite Hd.
  destruct (paint_all_spec h w ((map_to_list d).*2) (Np.zeros h w) H2h H2w)
    as (img & Himg & Hishape & Hpix).
  { apply Forall_fmap, Forall_forall. intros [obj m] Hin. simpl.
    apply elem_of_map_to_list in Hin. eauto. }
  { apply zeros_plane_shape. }
  exists img. split; [exact Himg|]. split; [exact Hishape|].
  rewrite (Hpix r c black (zeros_pixel h w r c Hr Hc)). split.
  - intros (obj & m & Hm & Hbit).
    assert (existsb (fun m => bit_at m r c) ((map_to_list d).*2) = true) as ->;
      [|reflexivity].
    apply existsb_exists. exists m. split; [|exact Hbit].
    apply list_elem_of_In, list_elem_of_fmap. exists (obj, m).
    split; [reflexivity|]. now apply elem_of_map_to_list.
  - intros Hnone.
    assert (existsb (fun m => bit_at m r c) ((map_to_list d).*2) = false) as ->;
      [|reflexivity].
    apply not_true_is_false. intros Hex.
    apply existsb_exists in Hex as (m & Hin & Hbit).
    apply list_elem_of_In, list_elem_of_fmap in Hin as ([obj m'] & -> & Hin).
    apply elem_of_map_to_list in Hin. simpl in Hbit.
    rewrite (Hnone obj m' Hin) in Hbit. discriminate.
Qed.

(** ** What the propagation loop collects *)

Lemma masks_of_spec i ids planes d d' :
  masks_of i ids planes d = Returned d' ->
  NoDup ids ->
  (forall obj, obj ∉ ids -> d' !! obj = d !! obj) /\
  (forall j obj, ids !! j = Some obj ->
     exists p, planes !! (i + j) = Some p /\ d' !! obj = Some (Np.gt0 p)).
Proof.
  revert i d. induction ids as [|id ids IH]; intros i d H Hnd.
  - simpl in H. injection H as <-. split; [done|]. intros j obj Hj. done.
  - cbn [masks_of] in H. unfold Str.index in H.
    destruct (planes !! i) as [p|] eqn:Hp; [|discriminate].
    unfold mbind, outcome_bind in H.
    apply NoDup_cons in Hnd as [Hnotin Hnd].
    destruct (IH _ _ H Hnd) as [Hout Hin]. split.
    + intros obj Hobj. apply not_elem_of_cons in Hobj as [Hne Hobj].
      rewrite (Hout obj Hobj). now apply lookup_insert_ne.
    + intros [|j] obj Hj; simpl in Hj.
      * injection Hj as <-. exists p. rewrite Nat.add_0_r. split; [exact Hp|].
        rewrite (Hout id Hnotin). apply lookup_insert_eq.
      * destruct (Hin j obj Hj) as (q & Hq & Hd).
        exists q. split; [|exact Hd]. rewrite <- Hq. f_equal. lia.
Qed.

Lemma collect_segments_step yields segs segs' :
  collect_segments yields segs = Returned segs' ->
  (forall i, is_Some (segs' !! i) <-> is_Some (segs !! i) \/ i ∈ yielded yields) /\
  (forall i, i ∉ yielded yields -> segs' !! i = segs !! i).
Proof.
  revert segs. induction yields as [|[[idx ids] planes] yields IH]; intros segs H.
  - simpl in H. injection H as <-. split.
    + intros i. split; [auto|]. intros [H|H]; [exact H|]. inversion H.
    + reflexivity.
  - cbn [collect_segments] in H.
    destruct (masks_of 0 ids planes ∅) as [d|] eqn:Hd; [|discriminate].
    unfold mbind, outcome_bind in H. destruct (IH _ H) as [Hkeys Hkeep].
    unfold yielded in *. cbn [fmap list_fmap fst]. split.
    + intros i. rewrite Hkeys, elem_of_cons.
      destruct (decide (i = idx)) as [->|Hne].
      * rewrite lookup_insert_eq. split; [auto|]. intros _. left. eauto.
      * rewrite lookup_insert_ne by done. tauto.
    + intros i Hi. apply not_elem_of_cons in Hi as [Hne Hi].
      rewrite (Hkeep i Hi). now apply lookup_insert_ne.
Qed.

Lemma collect_segments_app ys zs segs :
  collect_segments (ys ++ zs) segs
  = collect_segments ys segs ≫= collect_segments zs.
Proof.
  revert segs. induction ys as [|[[idx ids] planes] ys IH]; intros segs.
  - reflexivity.
  - cbn [app collect_segments].
    destruct (masks_of 0 ids planes ∅) as [d|]; [|reflexivity].
    unfold mbind at 1 3, outcome_bind at 1 3. apply IH.
Qed.

(** After the propagation loop, [video_segments] has an entry exactly for
    the frame indices the tracker yielded; the entry of an index comes
    from the last yield that carried it, and holds, for each of that
    yield's object ids, the thresholded logit plane at the id's
    position. *)
Theorem video_segments_spec yields video_segments :
  collect_segments yields ∅ = Returned video_segments ->
  (forall i, is_Some (video_segments !! i) <-> i ∈ yielded yields) /\
  (forall ys zs i ids planes,
     yields = ys ++ (i, ids, planes) :: zs ->
     i ∉ yielded zs -> NoDup ids ->
     exists d,
       video_segments !! i = Some d /\
       (forall obj, is_Some (d !! obj) <-> obj ∈ ids) /\
       forall j obj, ids !! j = Some obj ->
         exists p, planes !! j = Some p /\ d !! obj = Some (Np.gt0 p)).
Proof.
  intros H. split.
  - intros i. destruct (collect_segments_step _ _ _ H) as [Hkeys _].
    rewrite Hkeys, lookup_empty. split; [|auto].
    intros [[? ?]|Hi]; [discriminate|exact Hi].
  - intros ys zs i ids planes -> Hlast Hnd.
    rewrite collect_segments_app in H.
    destruct (collect_segments ys ∅) as [segs1|] eqn:H1; [|discriminate].
    unfold mbind, outcome_bind in H. cbn [collect_segments] in H.
    destruct (masks_of 0 ids planes ∅) as [d|] eqn:Hd; [|discriminate].
    unfold mbind, outcome_bind in H.
    destruct (collect_segments_step _ _ _ H) as [_ Hkeep].
    destruct (masks_of_spec _ _ _ _ _ Hd Hnd) as [Hout Hin].
    exists d. split; [|split].
    + rewrite (Hkeep i Hlast). apply lookup_insert_eq.
    + intros obj. split.
      * intros Hsome. destruct (decide (obj ∈ ids)) as [Hobj|Hobj]; [done|].
        rewrite (Hout obj Hobj), lookup_empty in Hsome.
        destruct Hsome; discriminate.
      * intros Hobj. apply list_elem_of_lookup in Hobj as [j Hj].
        destruct (Hin j obj Hj) as (p & _ & ->). eauto.
    + intros j obj Hj. destruct (Hin j obj Hj) as (p & Hp & Hdp).
      exists p. split; [exact Hp|exact Hdp].
Qed.

(** ** From logits to pixels *)

(** Under the tracker's contract, for frames at least two pixels each way:
    when the last yield for a frame of the chunk carries the single
    object id [1] and a logit plane of the frame's shape, the worker's
    PNG for that frame encodes an image that is white exactly at the
    pixels whose logit is strictly positive and black at the others. *)
Theorem mask_png_follows_logits w frame_jpegs width height st0 st
    yields ys zs i p :
  init_state w frame_jpegs = Returned st0 ->
  add_new_points_or_box w st0 0 1 (width / 2, height / 2) 1%Z = Returned st ->
  propagate_in_video w st = Returned yields ->
  Forall (well_formed_yield height width) yields ->
  yields = ys ++ (i, [1], [p]) :: zs -> i ∉ yielded zs ->
  plane_shape height width p ->
  2 <= height -> 2 <= width -> i < length frame_jpegs ->
  exists mask_pngs mask_img,
    Modal.segment_chunk w frame_jpegs width height = Returned mask_pngs /\
    mask_pngs !! i = Some (png_encode w mask_img) /\
    plane_shape height width mask_img /\
    forall r c, r < height -> c < width ->
      exists x,
        logit_at p r c = Some x /\
        pixel_at mask_img r c
        = Some (if Qlt_le_dec 0 x then Np.white else black).
Proof.
  intros Hinit Hseed Hprop Hyields Hsplit Hlast Hshape H2h H2w Hi.
  destruct (collect_segments_invariant height width yields ∅ Hyields)
    as (segs & Hsegs & Hok).
  { intros ? ? ? ? H. discriminate. }
  assert (track w frame_jpegs width height = Returned segs) as Htrack.
  { unfold track. rewrite Hinit. unfold mbind at 1, outcome_bind at 1.
    rewrite Hseed. unfold mbind at 1, outcome_bind at 1.
    rewrite Hprop. exact Hsegs. }
  destruct (segment_chunk_renders w frame_jpegs width height segs Htrack Hok)
    as (pngs & Hpngs & _ & Hall).
  destruct (Hall i Hi) as (img & Himg & Hpng & _).
  destruct (video_segments_spec yields segs Hsegs) as [_ Hlastyield].
  destruct (Hlastyield ys zs i [1] [p] Hsplit Hlast) as (d & Hd & Hdom & Hplanes).
  { apply NoDup_singleton. }
  destruct (Hplanes 0 1 eq_refl) as (p' & [= <-] & Hd1).
  assert (forall obj m, d !! obj = Some m -> obj = 1 /\ m = Np.gt0 p) as Honly.
  { intros obj m Hm.
    assert (obj ∈ [1]) as Hobj by (apply Hdom; eauto).
    apply list_elem_of_singleton in Hobj as ->. split; [reflexivity|].
    congruence. }
  exists pngs, img. split; [exact Hpngs|]. split; [exact Hpng|].
  assert (forall r c, r < height -> c < width ->
            exists img', render_frame height width segs i = Returned img' /\
                         plane_shape height width img' /\
                         exists x, logit_at p r c = Some x /\
                           pixel_at img' r c
                           = Some (if Qlt_le_dec 0 x then Np.white else black))
    as Hpix.
  { intros r c Hr Hc.
    destruct (render_frame_pixels height width segs i d r c H2h H2w Hd)
      as (img' & Himg' & Hishape & Hwhite & Hblack); try done.
    { intros obj m Hm. destruct (Honly obj m Hm) as [_ ->].
      now apply gt0_shape. }
    exists img'. split; [exact Himg'|]. split; [exact Hishape|].
    destruct Hshape as [Hph Hpw].
    destruct (lookup_lt_is_Some_2 p r ltac:(lia)) as [row Hrow].
    rewrite Forall_lookup in Hpw.
    destruct (lookup_lt_is_Some_2 row c) as [x Hx];
      [rewrite (Hpw _ _ Hrow); lia|].
    assert (logit_at p r c = Some x) as Hlogit.
    { unfold logit_at. rewrite Hrow. exact Hx. }
    exists x. split; [exact Hlogit|].
    pose proof (bit_at_gt0 p r c) as Hbit. rewrite Hlogit in Hbit.
    destruct (Qlt_le_dec 0 x).
    - apply Hwhite. exists 1, (Np.gt0 p). split; [exact Hd1|exact Hbit].
    - apply Hblack. intros obj m Hm. destruct (Honly obj m Hm) as [_ ->].
      exact Hbit. }
  split.
  - destruct (Hpix 0 0 ltac:(lia) ltac:(lia)) as (img' & Himg' & Hs & _).
    congruence.
  - intros r c Hr Hc. destruct (Hpix r c Hr Hc) as (img' & Himg' & _ & Hx).
    rewrite Himg in Himg'. injection Himg' as <-. exact Hx.
Qed.

(** ** The caller of the RunPod endpoint *)

(** Whatever [segment_video] returns, [main] can report it: an error
    response gives the one error line with its message, any other
    response has the three keys [main] reads, so the only exception that
    can end the report is one raised by decoding the returned video. *)
Theorem main_reports_every_response w data resp log :
  run (Runpod.segment_video w data) = (Returned resp, log) ->
  (exists msg,
     resp = error_response msg /\
     report w (Plain resp) = ([PrintedError (PStr msg)], None)) \/
  (exists frames fps result_bytes,
     resp = Runpod.success_response w frames fps result_bytes /\
     report w (Plain resp)
     = match b64decode w (b64encode w result_bytes) with
       | Returned mask_bytes =>
           ([PrintedSuccess;
             PrintedFrames (PInt (Z.of_nat (length frames))) (PFloat fps);
             PrintedSize (length mask_bytes)], None)
       | Raised e => ([], Some e)
       end).
Proof.
  intros Hrun.
  destruct (segment_video_returned w data resp log Hrun)
    as [->|[->|[Henc|Hok]]].
  - left. eexists. split; reflexivity.
  - left. eexists. split; reflexivity.
  - destruct Henc as (? & ? & ? & stderr & ? & _ & _ & ->).
    left. eexists. split; reflexivity.
  - destruct Hok as (? & ? & frames & fps & ? & ? & out & _ & _ & _ & _ & _ & ->).
    right. exists frames, fps, out. split; [reflexivity|].
    unfold report, report_output, Runpod.success_response.
    change (_ !! "error"%string) with (@None pyval).
    cbv beta iota.
    change (_ !! "mask_video_base64"%string)
      with (Some (PStr (b64encode w out))).
    cbv beta iota.
    destruct (b64decode w (b64encode w out)); reflexivity.
Qed.

(** ** The size of error messages *)

Lemma substring_length n m s :
  String.length (String.substring n m s) = Nat.min m (String.length s - n).
Proof.
  revert n m. induction s as [|c s IH]; intros n m.
  - destruct n, m; reflexivity.
  - destruct n as [|n].
    + destruct m as [|m]; simpl; [reflexivity|].
      rewrite IH. now rewrite Nat.sub_0_r.
    + simpl. apply IH.
Qed.

Lemma substring_whole m s :
  String.length s <= m -> String.substring 0 m s = s.
Proof.
  revert m. induction s as [|c s IH]; intros m Hm.
  - now destruct m.
  - destruct m as [|m]; simpl in *; [lia|]. rewrite IH by lia. reflexivity.
Qed.

Lemma substring_tail n m s :
  String.length s <= n + m ->
  exists head, s = head +:+ String.substring n m s.
Proof.
  revert n m. induction s as [|c s IH]; intros n m Hlen.
  - exists EmptyString. now destruct n, m.
  - destruct n as [|n].
    + exists EmptyString. simpl in Hlen.
      now rewrite substring_whole by (simpl; lia).
    + simpl in Hlen. destruct (IH n m ltac:(lia)) as [head Hhead].
      exists (String c head). simpl. rewrite Hhead at 1. reflexivity.
Qed.

Lemma length_string_app (a b : string) :
  String.length (a +:+ b) = String.length a + String.length b.
Proof. induction a as [|c a IH]; simpl; [reflexivity|]. now rewrite IH. Qed.

Lemma run_from {A} (m : M A) log o log' :
  appends m -> m log = (o, log') -> fst (run m) = o.
Proof.
  intros Hm H. rewrite (Hm log) in H. unfold run. now injection H as H _.
Qed.

(** A response of [segment_video], with the run that led to an
    encoder-failure message. *)
Lemma segment_video_error_origin w data resp log :
  run (Runpod.segment_video w data) = (Returned resp, log) ->
  resp = error_response "No video_base64 provided" \/
  resp = error_response "No frames extracted from video" \/
  (exists x video_bytes frames masks fps returncode stderr result_bytes,
     strip_prefix (get_payload data) = Returned x /\
     b64decode w x = Returned video_bytes /\
     ffmpeg_extract w video_bytes = Some frames /\
     fst (run (Runpod.render_masks w frames)) = Returned masks /\
     fst (run (probe_fps w video_bytes)) = Returned fps /\
     ffmpeg_encode w fps masks = (returncode, stderr, result_bytes) /\
     returncode <> 0%Z /\
     resp = error_response
              ("ffmpeg encode failed: " +:+ Py.str_suffix 500 stderr)) \/
  resp !! "error"%string = None.
Proof.
  intros H. apply segment_video_body_returned in H.
  unfold run at 1, Runpod.segment_video_body in H.
  destruct (negb (truthy _)).
  { invert_run. now left. }
  invert_run.
  - now right; left.
  - right; right; left.
    match goal with
    | H : ffmpeg_encode _ _ _ = (?rc, _, _) |- _ =>
        assert (rc <> 0%Z) by (destruct (Z.eqb_spec rc 0); [discriminate|done])
    end.
    do 8 eexists.
    repeat (split;
            [first [ eassumption
                   | eapply run_from; [auto with handler|eassumption] ]|]).
    reflexivity.
  - now right; right; right.
Qed.

(** Every error message the RunPod endpoint returns is a string of at most
    522 characters.  The one for an encoder failure is built from the
    stderr of this request's encoder run, the run on the masks rendered
    for the extracted frames at the probed frame rate, which exited
    non-zero: it ends with the last 500 characters of that stderr, or
    with all of it when it is shorter. *)
Theorem runpod_error_messages_bounded w data resp log v :
  run (Runpod.segment_video w data) = (Returned resp, log) ->
  resp !! "error"%string = Some v ->
  exists msg,
    v = PStr msg /\ String.length msg <= 522 /\
    (msg = "No video_base64 provided"%string \/
     msg = "No frames extracted from video"%string \/
     exists x video_bytes frames masks fps returncode stderr result_bytes head,
       let tail := Py.str_suffix 500 stderr in
       strip_prefix (get_payload data) = Returned x /\
       b64decode w x = Returned video_bytes /\
       ffmpeg_extract w video_bytes = Some frames /\
       fst (run (Runpod.render_masks w frames)) = Returned masks /\
       fst (run (probe_fps w video_bytes)) = Returned fps /\
       ffmpeg_encode w fps masks = (returncode, stderr, result_bytes) /\
       returncode <> 0%Z /\
       msg = "ffmpeg encode failed: " +:+ tail /\
       stderr = head +:+ tail /\
       String.length tail = Nat.min 500 (String.length stderr) /\
       (String.length stderr <= 500 -> tail = stderr)).
Proof.
  intros Hrun Hv.
  destruct (segment_video_error_origin w data resp log Hrun)
    as [->|[->|[Henc|Hok]]].
  - injection Hv as <-. eexists. split; [reflexivity|].
    split; [vm_compute; lia|]. now left.
  - injection Hv as <-. eexists. split; [reflexivity|].
    split; [vm_compute; lia|]. right; now left.
  - destruct Henc as (x & vb & frames & masks & fps & rc & stderr & out
                      & Hx & Hvb & Hex & Hmasks & Hfps & Henc & Hrc & ->).
    unfold error_response in Hv. rewrite lookup_singleton_eq in Hv.
    injection Hv as <-. eexists. split; [reflexivity|].
    assert (String.length (Py.str_suffix 500 stderr)
            = Nat.min 500 (String.length stderr)) as Hlen.
    { unfold Py.str_suffix. rewrite substring_length. lia. }
    split.
    + rewrite length_string_app, Hlen.
      change (String.length "ffmpeg encode failed: ") with 22. lia.
    + right; right.
      destruct (substring_tail (String.length stderr - 500) 500 stderr)
        as [head Hhead]; [lia|].
      exists x, vb, frames, masks, fps, rc, stderr, out, head. cbv zeta.
      repeat (split; [eassumption|]).
      split; [reflexivity|].
      split; [exact Hhead|]. split; [exact Hlen|].
      intros Hshort. unfold Py.str_suffix.
      replace (String.length stderr - 500) with 0 by lia.
      now apply substring_whole.
  - rewrite Hok in Hv. discriminate Hv.
Qed.

(** ** Where a probe failure strikes *)

Lemma bind_ret {A B} (a : A) (k : A -> M B) log :
  (mret a ≫= k) log = k a log.
Proof. reflexivity. Qed.

Lemma render_masks_returned w frames log masks log' :
  Runpod.render_masks w frames log = (Returned masks, log') ->
  length masks = length frames /\
  exists ev, log' = log ++ ev /\ masks_written ev = masks.
Proof.
  intros H. unfold Runpod.render_masks in H. invert_run.
  match goal with
  | H : for_range _ _ _ = (Returned _, _) |- _ =>
      pose proof (for_range_length _ _ _ _ _ H) as Hlen;
      apply render_loop_log in H as (ev & -> & Hw & _ & _)
  end.
  rewrite length_seq in Hlen. split; [exact Hlen|].
  eexists ([_; _] ++ ev). split.
  - rewrite <- !app_assoc. reflexivity.
  - unfold masks_written in *. rewrite omap_app, Hw. reflexivity.
Qed.

(** The two endpoints probe the input at different points.  When the
    probe raises, the Modal endpoint raises the same exception, having
    only decoded and stored the input: nothing was extracted and no
    worker ran.  The RunPod endpoint probes after inference: by the time
    the exception leaves it, a mask has been rendered and written for
    every frame; and since that handler is a coroutine, a [StopIteration]
    of the probe (no video stream) leaves it as a [RuntimeError]. *)
Theorem probe_failure_costs w order data x video_bytes e :
  truthy (get_payload data) = true ->
  strip_prefix (get_payload data) = Returned x ->
  b64decode w x = Returned video_bytes ->
  fst (run (probe_fps w video_bytes)) = Raised e ->
  run (Modal.segment w order data)
    = (Raised e, [EB64Decode x; EMkdtemp; EWriteInput video_bytes; EProbe]) /\
  (forall frames masks,
     ffmpeg_extract w video_bytes = Some frames -> frames <> [] ->
     fst (run (Runpod.render_masks w frames)) = Returned masks ->
     fst (run (Runpod.segment_video w data)) = Raised (coroutine_exit e) /\
     masks_written (snd (run (Runpod.segment_video w data))) = masks /\
     length masks = length frames).
Proof.
  intros Ht Hx Hvb Hp. split.
  - unfold run, Modal.segment. rewrite Ht. cbn [negb].
    rewrite Hx, bind_lift_returned, bind_perform, Hvb, bind_lift_returned,
      !bind_perform, bind_apply.
    rewrite (run_at (probe_fps w video_bytes) (Raised e))
      by auto with handler.
    unfold run. now rewrite (probe_fps_log w video_bytes []).
  - intros frames masks Hex Hne Hr.
    destruct frames as [|first rest]; [done|].
    destruct (run (Runpod.render_masks w (first :: rest))) as [o evr] eqn:Hrun.
    simpl in Hr. subst o.
    destruct (render_masks_returned _ _ _ _ _ Hrun) as (Hlen & ev & Hev & Hw).
    simpl in Hev. subst evr.
    assert (run (Runpod.segment_video w data)
            = (Raised (coroutine_exit e),
               [EB64Decode x; EMkdtemp; EWriteInput video_bytes;
                EExtract] ++ ev ++ [EProbe])) as ->.
    { unfold run, Runpod.segment_video, coroutine, Runpod.segment_video_body.
      rewrite Ht. cbn [negb].
      rewrite Hx, bind_lift_returned, bind_perform, Hvb, bind_lift_returned,
        !bind_perform, Hex.
      rewrite bind_ret. cbv beta iota. rewrite bind_apply.
      rewrite (run_at (Runpod.render_masks w (first :: rest)) (Returned masks))
        by (auto with handler; now rewrite Hrun).
      rewrite Hrun. cbn [snd]. rewrite bind_apply.
      rewrite (run_at (probe_fps w video_bytes) (Raised e))
        by auto with handler.
      unfold run. rewrite (probe_fps_log w video_bytes []). simpl.
      reflexivity. }
    split; [reflexivity|]. split; [|exact Hlen].
    cbn [snd]. unfold masks_written in *.
    rewrite !omap_app, Hw. simpl. now rewrite app_nil_r.
Qed.

(** ** The further theorems at concrete inputs *)

Lemma short_video_one_frame_per_chunk_witness :
  Demo.frames_of 3 <> [] /\
  split_chunks (Demo.frames_of 3) = (fun f => [f]) <$> Demo.frames_of 3.
Proof.
  assert (Demo.frames_of 3 <> []) as Hne by (vm_compute; discriminate).
  split; [exact Hne|].
  apply (short_video_one_frame_per_chunk (Demo.frames_of 3) Hne).
  vm_compute. lia.
Defined.

Lemma long_video_eight_chunks_witness :
  50 <= length (Demo.frames_of 50) /\
  length (split_chunks (Demo.frames_of 50)) = 8.
Proof.
  assert (50 <= length (Demo.frames_of 50)) as Hlen
    by (vm_compute; lia).
  split; [exact Hlen|].
  exact (long_video_eight_chunks (Demo.frames_of 50) Hlen).
Defined.

Lemma multiple_of_eight_splits_evenly_witness :
  length (split_chunks (Demo.frames_of 16)) = 8 /\
  Forall (fun chunk => length chunk = 2) (split_chunks (Demo.frames_of 16)).
Proof.
  apply (multiple_of_eight_splits_evenly (Demo.frames_of 16) 2).
  - lia.
  - reflexivity.
Defined.

Lemma no_payload_response_iff_witness :
  fst (run (Modal.segment (Demo.video 2) [0; 1] Cases.empty_object_request))
    = Returned (error_response "No video_base64 provided") /\
  fst (run (Runpod.segment_video (Demo.video 2) Cases.empty_object_request))
    = Returned (error_response "No video_base64 provided").
Proof.
  destruct (no_payload_response_iff (Demo.video 2) [0; 1]
              Cases.empty_object_request) as (Hmodal & Hrunpod & _).
  split; [apply Hmodal|apply Hrunpod]; reflexivity.
Defined.

Lemma non_string_payload_raises_witness :
  (run (Modal.segment (Demo.video 2) [0; 1] Cases.comma_list_request)
     = (Raised AttributeError, []) /\
   run (Runpod.segment_video (Demo.video 2) Cases.comma_list_request)
     = (Raised AttributeError, [])) /\
  (run (Modal.segment (Demo.video 2) [0; 1] Cases.number_list_request)
     = (Raised TypeError, []) /\
   run (Runpod.segment_video (Demo.video 2) Cases.number_list_request)
     = (Raised TypeError, [])).
Proof.
  split.
  - destruct (non_string_payload_raises (Demo.video 2) [0; 1]
                Cases.comma_list_request eq_refl) as (_ & Hlist & _).
    apply (Hlist [PStr ","] eq_refl). left.
  - destruct (non_string_payload_raises (Demo.video 2) [0; 1]
                Cases.number_list_request eq_refl) as (_ & Hlist & _).
    apply (Hlist [PInt 1] eq_refl).
    intros H. apply elem_of_cons in H as [H|H];
      [discriminate H|inversion H].
Defined.

Lemma first_video_stream_spec_witness :
  first_video_stream ([Cases.audio_stream] ++ Demo.video_stream :: [])
    = Returned Demo.video_stream.
Proof.
  refine (proj1 (first_video_stream_spec [Cases.audio_stream] []
                   Demo.video_stream _) _).
  - constructor; [|constructor].
    exists "audio"%string. split; [reflexivity|discriminate].
  - reflexivity.
Defined.

Lemma probe_fps_spec_witness :
  run (probe_fps (Demo.video 2) [Byte.x00; Byte.x00; Byte.x00])
    = (Returned (inject_Z 30 / inject_Z 1)%Q, [EProbe]) /\
  run (probe_fps Cases.decimal_rate [Byte.x00; Byte.x00; Byte.x00])
    = (Raised ValueError, [EProbe]).
Proof.
  split.
  - refine (proj1 (probe_fps_spec (Demo.video 2)
                     [Byte.x00; Byte.x00; Byte.x00]
                     [Demo.video_stream] Demo.video_stream _ _)
                  "30"%string "1"%string _ _ _);
      reflexivity.
  - destruct (ffprobe Cases.decimal_rate [Byte.x00; Byte.x00; Byte.x00])
      as [[|s [|? ?]]|e] eqn:Hstreams; try discriminate Hstreams.
    refine (proj1 (proj2 (probe_fps_spec Cases.decimal_rate
                            [Byte.x00; Byte.x00; Byte.x00] [s] s Hstreams _))
                  "29.97"%string _ _);
      injection Hstreams as <-; reflexivity.
Defined.

Lemma modal_success_masks_witness :
  exists n,
    0 < n /\
    mask_indices
      (snd (run (Modal.segment (Demo.video 9) [4; 3; 2; 1; 0]
                   (Demo.request "AAAA")))) = seq 0 n.
Proof.
  destruct (run (Modal.segment (Demo.video 9) [4; 3; 2; 1; 0]
                   (Demo.request "AAAA"))) as [[resp|e] log] eqn:Hrun.
  - destruct (modal_success_masks _ _ _ _ _ Hrun) as (n & _ & Hn & _ & Hi & _).
    + vm_compute in Hrun. injection Hrun as <- _. reflexivity.
    + exists n. split; [exact Hn|exact Hi].
  - vm_compute in Hrun. discriminate Hrun.
Defined.

Lemma runpod_success_masks_witness :
  exists n,
    0 < n /\
    mask_indices
      (snd (run (Runpod.segment_video (Demo.video 9) (Demo.request "AAAA"))))
    = seq 0 n.
Proof.
  destruct (run (Runpod.segment_video (Demo.video 9) (Demo.request "AAAA")))
    as [[resp|e] log] eqn:Hrun.
  - destruct (runpod_success_masks _ _ _ _ Hrun) as (n & _ & Hn & _ & Hi & _).
    + vm_compute in Hrun. injection Hrun as <- _. reflexivity.
    + exists n. split; [exact Hn|exact Hi].
  - vm_compute in Hrun. discriminate Hrun.
Defined.

Lemma failed_chunk_fails_request_witness :
  exists e',
    fst (run (Modal.dispatch Cases.tracker_fails [1; 0]
                (split_chunks (Demo.frames_of 2)) 2 2)) = Raised e'.
Proof.
  refine (proj1 (failed_chunk_fails_request Cases.tracker_fails [1; 0] ∅
                   EmptyString [] 0%Q [Byte.x00] [[Byte.x01]] 2 2
                   [[Byte.x00]] ModelError _ _)).
  - change ([[Byte.x00]] ∈ [[[Byte.x00]]; [[Byte.x01]]]). left.
  - reflexivity.
Defined.

Lemma modal_response_shape_witness :
  exists chunks,
    (fst (run (Modal.segment (Demo.video 9) [0; 1; 2; 3; 4]
                 (Demo.request "AAAA")))
       ≫= fun resp => Returned (resp !! "chunks"%string))
      = Returned (Some (PInt chunks)) /\
    (1 <= chunks <= 8)%Z.
Proof.
  destruct (run (Modal.segment (Demo.video 9) [0; 1; 2; 3; 4]
                   (Demo.request "AAAA"))) as [[resp|e] log] eqn:Hrun.
  - destruct (modal_response_shape _ _ _ _ _ Hrun)
      as (? & ? & chunks & ? & ? & _ & _ & Hc & _ & _ & _ & Hb & _).
    + vm_compute in Hrun. injection Hrun as <- _. reflexivity.
    + exists chunks. split; [|exact Hb]. simpl. now rewrite Hc.
  - vm_compute in Hrun. discriminate Hrun.
Defined.

Lemma render_frame_pixels_witness :
  exists mask_img,
    render_frame 2 2 Cases.diagonal_segments 0 = Returned mask_img /\
    pixel_at mask_img 0 0 = Some Np.white.
Proof.
  destruct (render_frame_pixels 2 2 Cases.diagonal_segments 0 Cases.diagonal
              0 0) as (img & Himg & _ & Hwhite & _).
  - lia.
  - lia.
  - reflexivity.
  - intros obj mask H. unfold Cases.diagonal in H.
    apply lookup_singleton_Some in H as [_ <-]. repeat constructor.
  - lia.
  - lia.
  - exists img. split; [exact Himg|]. apply Hwhite.
    exists 1, [[true; false]; [false; true]]. split; reflexivity.
Defined.

Lemma video_segments_spec_witness :
  exists video_segments,
    collect_segments Cases.two_yields ∅ = Returned video_segments /\
    is_Some (video_segments !! 1).
Proof.
  destruct (collect_segments Cases.two_yields ∅) as [segs|e] eqn:Hsegs.
  - exists segs. split; [reflexivity|].
    apply (proj1 (video_segments_spec Cases.two_yields segs Hsegs) 1).
    right. left.
  - vm_compute in Hsegs. discriminate Hsegs.
Defined.

Lemma mask_png_follows_logits_witness :
  exists mask_pngs mask_img,
    Modal.segment_chunk (Demo.video 2) (Demo.frames_of 2) 2 2
      = Returned mask_pngs /\
    mask_pngs !! 0 = Some (png_encode (Demo.video 2) mask_img) /\
    pixel_at mask_img 1 1 = Some Np.white.
Proof.
  destruct (mask_png_follows_logits (Demo.video 2) (Demo.frames_of 2) 2 2
              (Demo.frames_of 2) (Demo.frames_of 2) Cases.two_yields
              [] [(1, [1], [Demo.plane_of false])] 0 (Demo.plane_of true)
              eq_refl eq_refl eq_refl)
    as (pngs & img & Hrun & Hpng & _ & Hpix).
  - repeat constructor.
  - reflexivity.
  - change (0 ∉ [1]). intros H. apply elem_of_cons in H as [H|H];
      [discriminate H|inversion H].
  - repeat constructor.
  - lia.
  - lia.
  - vm_compute. lia.
  - exists pngs, img. split; [exact Hrun|]. split; [exact Hpng|].
    destruct (Hpix 1 1) as (x & Hx & Hpx); [lia..|].
    vm_compute in Hx. injection Hx as <-. exact Hpx.
Defined.

Lemma main_reports_every_response_witness :
  exists resp,
    fst (run (Runpod.segment_video (Demo.video 2) (Demo.request "AAAA")))
      = Returned resp /\
    resp !! "error"%string = None.
Proof.
  destruct (run (Runpod.segment_video (Demo.video 2) (Demo.request "AAAA")))
    as [[resp|e] log] eqn:Hrun.
  - destruct (main_reports_every_response _ _ _ _ Hrun)
      as [(msg & -> & _)|(frames & fps & out & -> & _)].
    + vm_compute in Hrun. discriminate Hrun.
    + eexists. split; reflexivity.
  - vm_compute in Hrun. discriminate Hrun.
Defined.

Lemma runpod_error_messages_bounded_witness :
  exists msg,
    (fst (run (Runpod.segment_video Demo.unencodable (Demo.request "AAAA")))
       ≫= fun resp => Returned (resp !! "error"%string))
      = Returned (Some (PStr msg)) /\
    String.length msg <= 522.
Proof.
  destruct (run (Runpod.segment_video Demo.unencodable (Demo.request "AAAA")))
    as [[resp|e] log] eqn:Hrun.
  - destruct (runpod_error_messages_bounded _ _ _ _
                (PStr "ffmpeg encode failed: Invalid frame rate") Hrun)
      as (msg & Hmsg & Hlen & _).
    + vm_compute in Hrun. injection Hrun as <- _. reflexivity.
    + exists msg. split; [|exact Hlen].
      vm_compute in Hrun. injection Hrun as <- _. now rewrite <- Hmsg.
  - vm_compute in Hrun. discriminate Hrun.
Defined.

Lemma probe_failure_costs_witness :
  run (Modal.segment Cases.audio_only [0; 1] (Demo.request "AAAA"))
  = (Raised StopIteration,
     [EB64Decode "AAAA"; EMkdtemp;
      EWriteInput [Byte.x00; Byte.x00; Byte.x00]; EProbe]) /\
  fst (run (Runpod.segment_video Cases.audio_only (Demo.request "AAAA")))
  = Raised (RuntimeError "coroutine raised StopIteration").
Proof.
  destruct (probe_failure_costs Cases.audio_only [0; 1]
              (Demo.request "AAAA") "AAAA"
              [Byte.x00; Byte.x00; Byte.x00] StopIteration
              eq_refl eq_refl eq_refl eq_refl) as [Hmodal Hrunpod].
  split; [exact Hmodal|].
  destruct (run (Runpod.render_masks Cases.audio_only (Demo.frames_of 2)))
    as [[masks|e] evr] eqn:Hr.
  - destruct (Hrunpod (Demo.frames_of 2) masks eq_refl) as (H & _).
    + vm_compute. discriminate.
    + now rewrite Hr.
    + exact H.
  - vm_compute in Hr. discriminate Hr.
Defined.
